(** * DeepFool notebook: a shallow embedding of [deep-fool.ipynb]

    The notebook defines five functions: [save_pkl], [load_pkl],
    [get_gradient], [example_robustness] and [deepfool].  They are embedded
    here as Rocq functions over
    - an interface [Scalar] for the floating-point numbers of numpy and
      TensorFlow and for numpy's sort of them, instantiated by binary64
      primitive floats ([F64], which computes) and by the real numbers
      ([Real], the arithmetic without rounding);
    - [ndarray], a numpy array as its shape and its row-major data;
    - a monad [M] for what the Python code does besides computing: raising
      an exception, and calling the model (each call is logged).
    The last two cells, which load the features and run [deepfool] on every
    example of the ten folds, are embedded as [notebook], over files that
    hold bytes.  What [deepfool] and the last cell print is left out. *)

From Stdlib Require String.
From Stdlib.Strings Require Byte.
From Stdlib Require DecimalString DecimalNat.
From Stdlib Require Import List ZArith Lia Bool Arith PeanoNat Permutation Sorted.
From Stdlib Require Import PrimFloat Floats Reals Lra.
Import ListNotations.
Import String.StringSyntax.
Local Open Scope nat_scope.

(** ** Numbers *)

(** The operations the notebook applies to numbers.  [nlt_inf a] is the test
    [a < np.inf]; [eps] is the literal [1e-3].  [argsort v] is [v.argsort()],
    the indices of [v] in ascending order of their values: numpy's default
    sort is not stable, so which of two indices with equal values comes first
    is not fixed by the code, and the sort is left to the number system.
    What numpy promises of it is [is_argsort] below. *)
Class Scalar : Type := {
  num : Type;
  nzero : num;
  n_one : num;
  eps : num;
  nadd : num -> num -> num;
  nsub : num -> num -> num;
  nmul : num -> num -> num;
  ndiv : num -> num -> num;
  nsqrt : num -> num;
  nltb : num -> num -> bool;
  nlt_inf : num -> bool;
  argsort : list num -> list nat
}.

(** ** Exceptions and effects *)

Inductive exn : Type :=
| IndexError             (* an index out of range, in a list or an array *)
| ValueError             (* operands or fields whose shapes do not fit *)
| InvalidArgumentError.  (* TensorFlow's: an index out of range in a tensor *)

(** The outcome of running Python code: a value, an exception, or (for the
    [while] loop run with fuel) fuel exhausted. *)
Inductive outcome (A : Type) : Type :=
| Ok (a : A)
| Raise (e : exn)
| Diverge.
Arguments Ok {A} a.
Arguments Raise {A} e.
Arguments Diverge {A}.

Definition obind {A B : Type} (m : outcome A) (f : A -> outcome B) : outcome B :=
  match m with
  | Ok a => f a
  | Raise e => Raise e
  | Diverge => Diverge
  end.

(** Calls to the model: [model.predict(x)], and [get_gradient(model, x, k)]
    with its differentiated call [model(x)] for class [k]. *)
Inductive event : Type :=
| Predict
| Gradient (k : nat).

(** A computation: its outcome and the calls it made, in order. *)
Definition M (A : Type) : Type := (outcome A * list event)%type.

Definition ret {A : Type} (a : A) : M A := (Ok a, []).

Definition bind {A B : Type} (m : M A) (f : A -> M B) : M B :=
  match m with
  | (Ok a, l) => let (o, l') := f a in (o, l ++ l')
  | (Raise e, l) => (Raise e, l)
  | (Diverge, l) => (Diverge, l)
  end.

Definition lift {A : Type} (o : outcome A) : M A := (o, []).

Definition tell (e : event) : M unit := (Ok tt, [e]).

(** A computation terminates when it does not run out of fuel, and returns
    when it ends with a value. *)
Definition oterminates {A : Type} (o : outcome A) : Prop := o <> Diverge.
Definition terminates {A : Type} (m : M A) : Prop := fst m <> Diverge.
Definition returns {A : Type} (m : M A) : Prop := exists a, fst m = Ok a.

Declare Scope outcome_scope.
Delimit Scope outcome_scope with outcome.
Notation "x <- m ; k" := (obind m (fun x => k))
  (at level 61, m at next level, right associativity) : outcome_scope.
Notation "' p <- m ; k" := (obind m (fun p => k))
  (at level 61, p pattern, m at next level, right associativity) : outcome_scope.

Declare Scope monad_scope.
Delimit Scope monad_scope with monad.
Notation "x <- m ;; k" := (bind m (fun x => k))
  (at level 61, m at next level, right associativity) : monad_scope.
Notation "' p <- m ;; k" := (bind m (fun p => k))
  (at level 61, p pattern, m at next level, right associativity) : monad_scope.

(** Python's [l[i]] on a list. *)
Definition list_get {A : Type} (l : list A) (i : nat) : outcome A :=
  match nth_error l i with
  | Some a => Ok a
  | None => Raise IndexError
  end.

(** Python's [l[i] = a], used only where [l[i]] was read before. *)
Fixpoint list_set {A : Type} (l : list A) (i : nat) (a : A) : list A :=
  match l, i with
  | [], _ => []
  | _ :: l', 0 => a :: l'
  | b :: l', S i' => b :: list_set l' i' a
  end.

(** [for b in l: acc = f(acc, b)], stopping at the first exception. *)
Fixpoint ofold {A B : Type} (f : A -> B -> outcome A) (l : list B) (acc : A)
  : outcome A :=
  match l with
  | [] => Ok acc
  | b :: l' => obind (f acc b) (ofold f l')
  end.

(** [[f(a, b) for a, b in zip(l, m)]]: [zip] stops at the shorter list. *)
Fixpoint omap2 {A B C : Type} (f : A -> B -> outcome C) (l : list A) (m : list B)
  : outcome (list C) :=
  match l, m with
  | a :: l', b :: m' =>
      obind (f a b) (fun c => obind (omap2 f l' m') (fun cs => Ok (c :: cs)))
  | _, _ => Ok []
  end.

(** ** numpy arrays *)

Section Numpy.
Context {NumT : Scalar}.

(** An array is its shape and its elements in row-major order; a float is
    the array of shape [()]. *)
Record ndarray : Type := mk_ndarray { shape : list nat; data : list num }.

(** The number of elements of an array of shape [s]. *)
Definition size (s : list nat) : nat := fold_right Nat.mul 1 s.

Definition shape_eqb (s t : list nat) : bool :=
  if list_eq_dec Nat.eq_dec s t then true else false.

(** [np.zeros(shape)] *)
Definition np_zeros (s : list nat) : ndarray :=
  {| shape := s; data := repeat nzero (size s) |}.

(** A float as an array. *)
Definition scalar_arr (v : num) : ndarray := {| shape := []; data := [v] |}.

(** [x ** 2] *)
Definition sq (v : num) : num := nmul v v.

(** [np.sum(l)] *)
Definition np_sum (l : list num) : num := fold_left nadd l nzero.

(** [x.dot(x)] on the flattened array. *)
Definition dot_self (a : ndarray) : num := np_sum (map sq (data a)).

(** [np.linalg.norm(a)] with the default [ord] and [axis]: numpy flattens
    the array and returns [sqrt(x.dot(x))], whatever its dimension. *)
Definition linalg_norm (a : ndarray) : num := nsqrt (dot_self a).

(** An arithmetic operator between two arrays of one shape.  The arrays the
    notebook combines are an input and gradients with respect to it, which
    TensorFlow returns in the shape of the input; other shapes are a
    [ValueError] here (numpy would first try to broadcast them). *)
Definition arr_binop (f : num -> num -> num) (a b : ndarray) : outcome ndarray :=
  if shape_eqb (shape a) (shape b)
  then Ok {| shape := shape a; data := map (fun p => f (fst p) (snd p)) (combine (data a) (data b)) |}
  else Raise ValueError.

Definition arr_add : ndarray -> ndarray -> outcome ndarray := arr_binop nadd.
Definition arr_sub : ndarray -> ndarray -> outcome ndarray := arr_binop nsub.

(** [c * a] for a float [c]. *)
Definition arr_scale (c : num) (a : ndarray) : ndarray :=
  {| shape := shape a; data := map (nmul c) (data a) |}.

(** [a[0]]: the first sub-array along the leading axis. *)
Definition arr_get0 (a : ndarray) : outcome ndarray :=
  match shape a with
  | [] => Raise IndexError
  | n :: s =>
      if n =? 0 then Raise IndexError
      else Ok {| shape := s; data := firstn (size s) (data a) |}
  end.

(** Broadcasting, as numpy defines it: the shape of [b] is padded with
    leading ones to the dimension of [a]; then along each axis [b] has the
    length of [a] or length one, and is repeated in the second case. *)
Definition pad_shape (n : nat) (s : list nat) : list nat :=
  repeat 1 (n - length s) ++ s.

Fixpoint bcast_ok (sa sb : list nat) : bool :=
  match sa, sb with
  | [], [] => true
  | a :: sa', b :: sb' => ((b =? a) || (b =? 1)) && bcast_ok sa' sb'
  | _, _ => false
  end.

Definition broadcastable (sa sb : list nat) : bool :=
  (length sb <=? length sa) && bcast_ok sa (pad_shape (length sa) sb).

(** [d] cut into [count] runs of [m] elements. *)
Fixpoint chunks (m count : nat) (d : list num) : list (list num) :=
  match count with
  | 0 => []
  | S c => firstn m d :: chunks m c (skipn m d)
  end.

Fixpoint bcast_data (sa sb : list nat) (d : list num) : list num :=
  match sa, sb with
  | a :: sa', b :: sb' =>
      if b =? a
      then flat_map (bcast_data sa' sb') (chunks (size sb') a d)
      else concat (repeat (bcast_data sa' sb' d) a)
  | _, _ => d
  end.

Definition broadcast_to (sa : list nat) (b : ndarray) : list num :=
  bcast_data sa (pad_shape (length sa) (shape b)) (data b).

(** [a += b] on arrays: [b] is broadcast to the shape of [a]. *)
Definition arr_iadd (a b : ndarray) : outcome ndarray :=
  if broadcastable (shape a) (shape b)
  then Ok {| shape := shape a;
             data := map (fun p => nadd (fst p) (snd p))
                         (combine (data a) (broadcast_to (shape a) b)) |}
  else Raise ValueError.

(** [np.array(fields)] and [tf.convert_to_tensor(fields)]: the fields are
    stacked along a new leading axis, so they must have one shape.  The
    stacked array is kept as the list of its sub-arrays, which is what
    iterating over it yields. *)
Definition homogeneous (x : list ndarray) : bool :=
  match x with
  | [] => true
  | a :: l => forallb (fun b => shape_eqb (shape a) (shape b)) l
  end.

Definition np_array (x : list ndarray) : outcome (list ndarray) :=
  if homogeneous x then Ok x else Raise ValueError.

(** ** [argsort] and the predicted label *)

(** [v.argsort()[::-1][0]] *)
Definition argmax (v : list num) : outcome nat :=
  list_get (rev (argsort v)) 0.

(** ** The model *)

(** The classifier, as the notebook uses it on a batch of one example:
    [forward x] is the score vector ([model.predict(x).flatten()], and row 0
    of [model(x)]); [gradient x k] is what [tape.gradient] returns for the
    score of class [k], one array per field of [x]. *)
Record Model : Type := {
  forward : list ndarray -> list num;
  gradient : list ndarray -> nat -> list ndarray
}.

(** [model.predict(x).flatten()] *)
Definition predict (model : Model) (x : list ndarray) : M (list num) :=
  (_ <- tell Predict ;; ret (forward model x))%monad.

(** [results[0, k]] on the tensor of the scores: TensorFlow raises its
    [InvalidArgumentError] when the model has no class [k]. *)
Definition tensor_get (results : list num) (k : nat) : outcome num :=
  match nth_error results k with
  | Some a => Ok a
  | None => Raise InvalidArgumentError
  end.

(** [get_gradient(model, x, k)].  The cast of [x] to [float32] is not
    modelled. *)
Definition get_gradient (model : Model) (x : list ndarray) (k : nat)
  : M (list ndarray * list num) :=
  (_ <- tell (Gradient k) ;;
   x <- lift (np_array x) ;;
   let results := forward model x in
   _ <- lift (tensor_get results k) ;;
   let gradients := gradient model x k in
   ret (gradients, results))%monad.

(** ** [example_robustness] *)

(** [np.sqrt(np.sum([np.linalg.norm(a)**2 for a in x]))] *)
Definition fields_sq_norm (x : list ndarray) : num :=
  np_sum (map (fun a => sq (linalg_norm a)) x).

Definition fields_norm (x : list ndarray) : num := nsqrt (fields_sq_norm x).

Definition example_robustness (x r : list ndarray) : num :=
  let r_norm := fields_norm r in
  let x_norm := fields_norm x in
  ndiv r_norm x_norm.

(** ** [deepfool] *)

(** The bound [fk_wk_min], which starts as [np.inf]. *)
Inductive bound : Type :=
| Inf
| Fin (v : num).

(** [a < b] for a bound [b]. *)
Definition below (a : num) (b : bound) : bool :=
  match b with
  | Inf => nlt_inf a
  | Fin v => nltb a v
  end.

(** [np.sqrt(np.sum(np.fromiter([np.linalg.norm(a)**2 for a in w_k], ...)))];
    the cast to [float32] of [np.fromiter] is not modelled, here and in
    [w_l_squared_norm]. *)
Definition w_k_norm (w_k : list ndarray) : num := fields_norm w_k.

(** [np.linalg.norm(f_k) / (w_k_norm + 1e-3)] *)
Definition fk_wk (f_k : num) (w_k : list ndarray) : num :=
  ndiv (linalg_norm (scalar_arr f_k)) (nadd (w_k_norm w_k) eps).

(** [np.sum(np.fromiter([np.linalg.norm(a)**2 for a in w_l], ...))] *)
Definition w_l_squared_norm (w_l : list ndarray) : num := fields_sq_norm w_l.

(** [f_l_norm / (w_l_squared_norm + 1e-3)] *)
Definition ri_const (f_l : num) (w_l : list ndarray) : num :=
  let f_l_norm := linalg_norm (scalar_arr f_l) in
  ndiv f_l_norm (nadd (w_l_squared_norm w_l) eps).

(** [[np.zeros(x_input.shape) for x_input in x0]] *)
Definition zeros_like (x0 : list ndarray) : list ndarray :=
  map (fun x_input => np_zeros (shape x_input)) x0.

(** What the class scan keeps from one class to the next. *)
Record scan_state : Type := {
  w_l : list ndarray;
  f_l : num;
  fk_wk_min : bound
}.

Section Deepfool.
Variable model : Model.
Variable x0 : list ndarray.
Variable eta : num.
Variable max_iter : Z.

(** One class [k] of the scan: the body of [for k in range(10)].  The
    assignment in the last [if] leaves [fk_wk_min] as it is. *)
Definition scan_class (xi : list ndarray) (label_x0 : nat)
  (grad_f_label_x0_on_xi : list ndarray) (st : scan_state) (k : nat) : M scan_state :=
  if k =? label_x0 then ret st
  else
    ('(grad_f_k_on_xi, f_xi) <- get_gradient model xi k ;;
     w_k <- lift (omap2 arr_sub grad_f_k_on_xi grad_f_label_x0_on_xi) ;;
     f_xi_k <- lift (tensor_get f_xi k) ;;
     f_xi_label <- lift (tensor_get f_xi label_x0) ;;
     let f_k := nsub f_xi_k f_xi_label in
     let d := fk_wk f_k w_k in
     if below d (fk_wk_min st)
     then ret {| w_l := w_k; f_l := f_k; fk_wk_min := fk_wk_min st |}
     else ret st)%monad.

(** [for k in ks: ...] *)
Fixpoint scan (xi : list ndarray) (label_x0 : nat)
  (grad_f_label_x0_on_xi : list ndarray) (ks : list nat) (st : scan_state)
  : M scan_state :=
  match ks with
  | [] => ret st
  | k :: ks' =>
      (st' <- scan_class xi label_x0 grad_f_label_x0_on_xi st k ;;
       scan xi label_x0 grad_f_label_x0_on_xi ks' st')%monad
  end.

(** [range(10)] *)
Definition class_range : list nat := seq 0 10.

(** The variables of the main loop. *)
Record loop_state : Type := {
  xi : list ndarray;
  label_xi : nat;
  r : list (list ndarray);
  loop_i : Z
}.

(** The body of the [while] loop. *)
Definition iteration (label_x0 : nat) (st : loop_state) : M loop_state :=
  (let init := {| w_l := zeros_like x0; f_l := nzero; fk_wk_min := Inf |} in
   '(grad_f_label_x0_on_xi, _) <- get_gradient model (xi st) label_x0 ;;
   win <- scan (xi st) label_x0 grad_f_label_x0_on_xi class_range init ;;
   let ri := map (arr_scale (ri_const (f_l win) (w_l win))) (w_l win) in
   xi_new <- lift (omap2 (fun xi_item ri_item =>
                            arr_add xi_item (arr_scale (nadd n_one eta) ri_item))
                         (xi st) ri) ;;
   xi' <- lift (np_array xi_new) ;;
   f_xi <- predict model xi' ;;
   label <- lift (argmax f_xi) ;;
   ret {| xi := xi'; label_xi := label; r := r st ++ [ri];
          loop_i := (loop_i st + 1)%Z |})%monad.

(** [while label_xi == label_x0 and loop_i < max_iter: ...], with fuel. *)
Fixpoint main_loop (fuel : nat) (label_x0 : nat) (st : loop_state) : M loop_state :=
  if (label_xi st =? label_x0) && (loop_i st <? max_iter)%Z then
    match fuel with
    | 0 => (Diverge, [])
    | S fuel' =>
        (st' <- iteration label_x0 st ;; main_loop fuel' label_x0 st')%monad
    end
  else ret st.

(** [r_sum[i] += r_i[i][0]] *)
Definition add_snapshot (i : nat) (r_sum : list ndarray) (r_i : list ndarray)
  : outcome (list ndarray) :=
  (r_i_i <- list_get r_i i ;
   first <- arr_get0 r_i_i ;
   acc <- list_get r_sum i ;
   acc' <- arr_iadd acc first ;
   Ok (list_set r_sum i acc'))%outcome.

(** The two loops after the main loop. *)
Definition sum_history (history : list (list ndarray)) : outcome (list ndarray) :=
  ofold (fun r_sum i => ofold (add_snapshot i) history r_sum)
        (seq 0 (length x0)) (zeros_like x0).

Definition initial_state (label_x0 : nat) : loop_state :=
  {| xi := x0; label_xi := label_x0; r := []; loop_i := 0%Z |}.

(** [deepfool(model, x0, eta, max_iter)], the loop run with [fuel]. *)
Definition deepfool_fuel (fuel : nat) : M (list ndarray * Z * nat) :=
  (f_x0 <- predict model x0 ;;
   label_x0 <- lift (argmax f_x0) ;;
   st <- main_loop fuel label_x0 (initial_state label_x0) ;;
   r_sum <- lift (sum_history (r st)) ;;
   ret (r_sum, loop_i st, label_xi st))%monad.

(** The loop runs at most [max_iter] times, so this fuel is enough
    (see [main_loop_fuel]). *)
Definition deepfool : M (list ndarray * Z * nat) :=
  deepfool_fuel (Z.to_nat max_iter).

End Deepfool.
End Numpy.

Arguments ndarray : clear implicits.
Arguments Model : clear implicits.

(** ** A sort for the number systems *)

(** An insertion sort of the indices of [v]: index [i] is put before the
    first index whose value it is [before].  With [<] for [before], indices
    of equal values stay in index order. *)
Section Insertion_sort.
Variable A : Type.
Variable before : A -> A -> bool.
Variable d : A.

Fixpoint insert_idx (v : list A) (i : nat) (sorted : list nat) : list nat :=
  match sorted with
  | [] => [i]
  | j :: rest =>
      if before (nth i v d) (nth j v d)
      then i :: sorted
      else j :: insert_idx v i rest
  end.

Definition insertion_argsort (v : list A) : list nat :=
  fold_left (fun sorted i => insert_idx v i sorted) (seq 0 (length v)) [].

End Insertion_sort.
Arguments insert_idx {A} before d v i sorted.
Arguments insertion_argsort {A} before d v.

(** The order in which numpy sorts floats: [<], with NaN after every other
    float. *)
Definition float_before (a b : float) : bool :=
  PrimFloat.ltb a b || (negb (PrimFloat.eqb b b) && PrimFloat.eqb a a).

(** ** The two number systems *)

(** binary64, the [float64] of numpy and the [float] of Python.  [1e-3] is
    written as the double Python reads it as.  TensorFlow computes the
    scores and the gradients in [float32], and [np.fromiter] casts the
    squared norms to [float32]; these casts are not modelled, so digits
    can differ from those of a run.  The sort is the insertion sort in
    numpy's order of floats, one of the sorts that meet [is_argsort]. *)
Definition F64 : Scalar := {|
  num := float;
  nzero := 0%float;
  n_one := 1%float;
  eps := 0x1.0624dd2f1a9fcp-10%float;
  nadd := PrimFloat.add;
  nsub := PrimFloat.sub;
  nmul := PrimFloat.mul;
  ndiv := PrimFloat.div;
  nsqrt := PrimFloat.sqrt;
  nltb := PrimFloat.ltb;
  nlt_inf := fun a => PrimFloat.ltb a infinity;
  argsort := insertion_argsort float_before 0%float
|}.

(** The real numbers: the same operations without rounding, overflow or
    NaN; every real is below [np.inf].  The sort is the insertion sort. *)
Definition Real : Scalar := {|
  num := R;
  nzero := 0%R;
  n_one := 1%R;
  eps := (1 / 1000)%R;
  nadd := Rplus;
  nsub := Rminus;
  nmul := Rmult;
  ndiv := Rdiv;
  nsqrt := sqrt;
  nltb := fun a b => if Rlt_dec a b then true else false;
  nlt_inf := fun _ => true;
  argsort := insertion_argsort (fun a b => if Rlt_dec a b then true else false) 0%R
|}.

(** ** What the specification says, for comparison *)

Section Specification.
Context {NumT : Scalar}.

(** The field-wise sum of the recorded perturbations: every field of every
    snapshot is added, whole, to the field of the same index. *)
Definition fieldwise_sum (x0 : list (ndarray NumT)) (history : list (list (ndarray NumT)))
  : outcome (list (ndarray NumT)) :=
  ofold (fun acc r_i => omap2 arr_add acc r_i) history (zeros_like x0).

(** The joint Euclidean norm: the norm of all the fields flattened into one
    vector. *)
Definition joint_norm (x : list (ndarray NumT)) : num :=
  nsqrt (np_sum (map sq (concat (map data x)))).

(** [l] is the stable argmax of [v]: a maximal score, and the lowest index
    that has it. *)
Definition lowest_argmax (v : list num) (l : nat) : Prop :=
  l < length v /\
  (forall j, j < length v -> nltb (nth l v nzero) (nth j v nzero) = false) /\
  (forall j, j < l -> nltb (nth j v nzero) (nth l v nzero) = true).

(** Index [i] does not come after index [j] in ascending order of scores. *)
Definition not_above (v : list num) (i j : nat) : Prop :=
  nltb (nth j v nzero) (nth i v nzero) = false.

(** What numpy promises of [p = v.argsort()]: [p] holds every index of [v]
    once, and no index comes before one of a smaller value.  Nothing is
    said of indices with equal values, or with a NaN. *)
Definition is_argsort (v : list num) (p : list nat) : Prop :=
  Permutation p (seq 0 (length v)) /\ StronglySorted (not_above v) p.

(** The first half alone, for [argsort v]. *)
Definition argsort_permutes (v : list num) : Prop :=
  Permutation (argsort v) (seq 0 (length v)).

(** [l] is an index of [v] and no other score is greater than its score. *)
Definition maximal_score (v : list num) (l : nat) : Prop :=
  l < length v /\
  forall j, j < length v -> j <> l -> nltb (nth l v nzero) (nth j v nzero) = false.

(** The classes of a model with [n] classes, without the top label. *)
Definition other_classes (n label_x0 : nat) : list nat :=
  filter (fun k => negb (k =? label_x0)) (seq 0 n).

(** Arrays of zeros. *)
Definition all_zero (w : list (ndarray NumT)) : Prop :=
  Forall (fun a => Forall (eq nzero) (data a)) w.

End Specification.

(** ** [save_pkl] and [load_pkl] *)

Section Persistence.
Local Open Scope string_scope.

(** The notices printed when an exception is caught. *)
Definition save_failure : String.string := "Fail to save data".
Definition load_failure : String.string := "Fail to load data".

(** Python objects, and [pickle] on them: [dump d] is the bytes that
    [pickle.dump(d, file)] writes and whether it returns ([true]) or raises
    after writing them ([false]); [loads b] is what [pickle.load] reads from
    a file holding [b], or [None] when it raises. *)
Variable obj : Type.
Variable dump : obj -> list Byte.byte * bool.
Variable loads : list Byte.byte -> option obj.

(** The files: [content path] is what a file holds, [None] when
    [open(path, "rb")] raises; [writable path] tells whether
    [open(path, "wb")] returns. *)
Record filesystem : Type := {
  content : String.string -> option (list Byte.byte);
  writable : String.string -> bool
}.

Definition write (fs : filesystem) (path : String.string) (b : list Byte.byte)
  : filesystem :=
  {| content := fun p => if String.eqb p path then Some b else content fs p;
     writable := writable fs |}.

(** [save_pkl(data, path)]: the files afterwards and what was printed.  The
    file is truncated when it is opened, and keeps what [pickle.dump] wrote
    before an exception. *)
Definition save_pkl (data : obj) (path : String.string) (fs : filesystem)
  : filesystem * list String.string :=
  if writable fs path then
    let (bytes, returned) := dump data in
    (write fs path bytes,
     if returned then [] else [save_failure])
  else (fs, [save_failure]).

(** [load_pkl(path)]: the value returned ([None] is Python's [None]) and
    what was printed. *)
Definition load_pkl (path : String.string) (fs : filesystem)
  : option obj * list String.string :=
  match content fs path with
  | Some bytes =>
      match loads bytes with
      | Some to_return => (Some to_return, [])
      | None => (None, [load_failure])
      end
  | None => (None, [load_failure])
  end.

End Persistence.

(** A pickle for lists of booleans, one byte each. *)
Definition dump_bools (d : list bool) : list Byte.byte * bool :=
  (map (fun b : bool => if b then Byte.x01 else Byte.x00) d, true).

Fixpoint loads_bools (b : list Byte.byte) : option (list bool) :=
  match b with
  | [] => Some []
  | Byte.x00 :: b' => option_map (cons false) (loads_bools b')
  | Byte.x01 :: b' => option_map (cons true) (loads_bools b')
  | _ => None
  end.

Definition empty_disk : filesystem :=
  {| content := fun _ => None; writable := fun _ => true |}.

Local Open Scope string_scope.
Definition fold1_path : String.string := "robustness/robustness_values_rnn_fold1.pkl".
Definition features_path : String.string := "data/features_rnn.pkl".
Local Close Scope string_scope.

(** ** Runs and well-formed inputs *)

Section Runs.
Context {NumT : Scalar}.

(** The body of the main loop run [n] times in a row, whatever the labels:
    the candidates a run goes through as long as the label does not flip. *)
Fixpoint iterations (model : Model NumT) (x0 : list (ndarray NumT)) (eta : num)
  (n : nat) (label_x0 : nat) (st : loop_state) : M loop_state :=
  match n with
  | 0 => ret st
  | S n' =>
      (st' <- iteration model x0 eta label_x0 st ;;
       iterations model x0 eta n' label_x0 st')%monad
  end.

(** The state in which [iteration] starts the class scan. *)
Definition scan_init (x0 : list (ndarray NumT)) : scan_state :=
  {| w_l := zeros_like x0; f_l := nzero; fk_wk_min := Inf |}.

(** A classifier as the notebook loads it: a fixed number of classes, at
    least the ten that [deepfool] scans, and gradients in the shape of the
    input (as [tape.gradient] returns them). *)
Definition model_wf (model : Model NumT) : Prop :=
  (exists n, 10 <= n /\ forall x, length (forward model x) = n) /\
  (forall x k, map shape (gradient model x k) = map shape x).

(** An input as the notebook builds it ([np.expand_dims(X_fold[i], axis=0)]):
    fields of one shape, each with a first row. *)
Definition input_wf (x0 : list (ndarray NumT)) : Prop :=
  homogeneous x0 = true /\
  Forall (fun a => exists n s, shape a = S n :: s) x0.

End Runs.

(** ** Two statements of the specification *)

(** In an iteration the classes scanned are those of the score vector, all
    but the top label. *)
Definition scan_follows_score_vector : Prop :=
  forall (NumT : Scalar) (model : Model NumT) (x0 : list (ndarray NumT)) (eta : num)
         (label_x0 : nat) (st : loop_state),
    returns (iteration model x0 eta label_x0 st) ->
    snd (iteration model x0 eta label_x0 st)
    = Gradient label_x0
      :: map Gradient (other_classes (length (forward model (xi st))) label_x0)
      ++ [Predict].

(** The label is a maximal score and, among equal maximal scores, the lowest
    index: with every sort that numpy's promise allows. *)
Definition argmax_breaks_ties_low : Prop :=
  forall NumT : Scalar,
    (forall v : list (@num NumT), is_argsort v (argsort v)) ->
    forall v : list (@num NumT),
      v <> [] -> exists l, argmax v = Ok l /\ lowest_argmax v l.

(** ** Test doubles *)

Definition arr64 (s : list nat) (d : list float) : ndarray F64 := @mk_ndarray F64 s d.
Definition scalarR (v : R) : ndarray Real := @scalar_arr Real v.

(** The data [d] cut into arrays of the shapes of the fields of [x]. *)
Fixpoint unflatten (x : list (ndarray F64)) (d : list float) : list (ndarray F64) :=
  match x with
  | [] => []
  | a :: x' =>
      arr64 (shape a) (firstn (length (data a)) d)
      :: unflatten x' (skipn (length (data a)) d)
  end.

Definition dot64 (w v : list float) : float :=
  fold_left PrimFloat.add (map (fun p => PrimFloat.mul (fst p) (snd p)) (combine w v)) 0%float.

(** A linear classifier: the score of class [k] is [b_k + W_k . x], and its
    gradient is the row [W_k].  It computes in binary64, where a Keras model
    computes in [float32]. *)
Definition linear_model (W : list (list float)) (b : list float) : Model F64 :=
  @Build_Model F64
    (fun x => map (fun p => PrimFloat.add (snd p) (dot64 (fst p) (concat (map data x))))
                  (combine W b))
    (fun x k => unflatten x (nth k W [])).

(** One example of two time steps and one feature, as [deepfool] receives
    it: an array of shape [(1, 2, 1)], that is one field of shape [(2, 1)]. *)
Definition x_two_steps : list (ndarray F64) := [arr64 [2; 1] [0; 0]%float].

(** One example of a single time step and two features: an array of shape
    [(1, 1, 2)], that is one field of shape [(1, 2)]. *)
Definition x_one_step : list (ndarray F64) := [arr64 [1; 2] [0; 0]%float].

(** Ten classes; class 0 is the top class at [x_two_steps], class 1 is the
    nearest other class and class 9 is farther. *)
Definition model_near1 : Model F64 :=
  linear_model
    [[0; 0]; [3; 4]; [0; 0]; [0; 0]; [0; 0]; [0; 0]; [0; 0]; [0; 0]; [0; 0]; [1; 2]]%float
    [10; 9; 0; 0; 0; 0; 0; 0; 0; 8]%float.

(** Ten classes; classes 8 and 9 are at the same distance, the smallest. *)
Definition model_tie : Model F64 :=
  linear_model
    [[0; 0]; [0; 0]; [0; 0]; [0; 0]; [0; 0]; [0; 0]; [0; 0]; [0; 0]; [3; 4]; [4; 3]]%float
    [10; 0; 0; 0; 0; 0; 0; 0; 9; 9]%float.

(** Ten classes; class 9, the last one scanned, is the nearest. *)
Definition model_near9 : Model F64 :=
  linear_model
    [[0; 0]; [0; 0]; [0; 0]; [0; 0]; [0; 0]; [0; 0]; [0; 0]; [0; 0]; [0; 0]; [1; 2]]%float
    [10; 0; 0; 0; 0; 0; 0; 0; 0; 8]%float.

(** Twelve classes; class 11 is the nearest to the top class 0. *)
Definition model_12 : Model F64 :=
  linear_model
    [[0; 0]; [0; 0]; [0; 0]; [0; 0]; [0; 0]; [0; 0]; [0; 0]; [0; 0]; [0; 0]; [0; 0];
     [0; 0]; [1; 2]]%float
    [10; 0; 0; 0; 0; 0; 0; 0; 0; 0; 0; 9]%float.

(** Three classes. *)
Definition model_3 : Model F64 :=
  linear_model [[0; 0]; [1; 2]; [0; 0]]%float [10; 9; 0]%float.

(** Ten classes; classes 0, 1 and 2 have the same score, the greatest, and
    the same gradient. *)
Definition model_twins : Model F64 :=
  linear_model
    [[1; 2]; [1; 2]; [1; 2]; [0; 0]; [0; 0]; [0; 0]; [0; 0]; [0; 0]; [0; 0]; [0; 0]]%float
    [10; 10; 10; 0; 0; 0; 0; 0; 0; 0]%float.

(** ** Counting the calls to the model *)

Definition is_predict (e : event) : bool :=
  match e with Predict => true | Gradient _ => false end.

Definition is_gradient (e : event) : bool :=
  match e with Predict => false | Gradient _ => true end.

(** The calls of one iteration of the main loop, in order: [get_gradient]
    for the top label, [get_gradient] for the classes of [range(10)] other
    than the top label, and [predict] for the new candidate. *)
Definition iteration_calls (label_x0 : nat) : list event :=
  Gradient label_x0 :: map Gradient (other_classes 10 label_x0) ++ [Predict].

(** ** The run over the ten folds *)

(** What ends the run: the exceptions of the last cell. *)
Inductive failure : Type :=
| TypeError         (* [df_data] is [None], which has no subscript *)
| LookupError       (* [df_data[f]] raised: no such fold *)
| LoadError         (* [keras.models.load_model] raised *)
| Raised (e : exn)  (* [deepfool] raised [e] *)
| NoFuel.           (* [deepfool] ran out of fuel *)

(** [str(n)] for an integer that is not negative, as an f-string formats
    it. *)
Definition str (n : nat) : String.string :=
  DecimalString.NilZero.string_of_uint (Nat.to_uint n).

Local Open Scope string_scope.
Definition fold_path (f : nat) : String.string :=
  String.append "robustness/robustness_values_rnn_fold" (String.append (str f) ".pkl").
Definition model_path (f : nat) : String.string :=
  String.append "kfold_metrics_LSTM/model_fold" (String.append (str f) ".keras").
Local Close Scope string_scope.

(** The state of a run: the files, the notices that [save_pkl] and
    [load_pkl] printed (other printing is not modelled), the calls made to
    the models, and the exception that ended the run, if any. *)
Record run : Type := {
  disk : filesystem;
  notices : list String.string;
  calls : list event;
  raised : option failure
}.

Definition start (fs : filesystem) (out : list String.string) : run :=
  {| disk := fs; notices := out; calls := []; raised := None |}.

Definition raise (st : run) (l : list event) (e : failure) : run :=
  {| disk := disk st; notices := notices st; calls := calls st ++ l;
     raised := Some e |}.

Section Driver.
Context {NumT : Scalar}.

(** [df_data] seen through its subscript: [d f] is [df_data[f]], the
    examples of fold [f], or [None] when the subscript raises. *)
Definition features : Type := nat -> option (list (ndarray NumT)).

(** [pickle.load] on the features file, [keras.models.load_model] on the
    bytes of a model file ([None] when it raises), and [pickle.dump] on a
    list of floats.  [eta] is the [1e6] of the call. *)
Variable loads : list Byte.byte -> option features.
Variable load_model : list Byte.byte -> option (Model NumT).
Variable dump : list num -> list Byte.byte * bool.
Variable eta : num.

(** [for i in range(len(X_fold)): ...], from example [i] on.  The array
    [np.expand_dims(X_fold[i], axis=0)] has the one row [X_fold[i]]. *)
Fixpoint fold_examples (fold_model_rnn : Model NumT) (X_fold : list (ndarray NumT))
  (robustness_values_rnn_fold : list num) : M (list num) :=
  match X_fold with
  | [] => ret robustness_values_rnn_fold
  | X_fold_i :: rest =>
      (let example_input := [X_fold_i] in
       '(perturbation, _, _) <- deepfool fold_model_rnn example_input eta 20 ;;
       fold_examples fold_model_rnn rest
         (robustness_values_rnn_fold
            ++ [example_robustness example_input perturbation]))%monad
  end.

(** [v] is the value that the loop appends for the example [X_fold_i]: the
    ratio of the perturbation that [deepfool] returns for it. *)
Definition ratio_of (fold_model_rnn : Model NumT) (X_fold_i : ndarray NumT) (v : num)
  : Prop :=
  exists perturbation iters label log,
    deepfool fold_model_rnn [X_fold_i] eta 20 = (Ok (perturbation, iters, label), log) /\
    v = example_robustness [X_fold_i] perturbation.

(** The body of [for f in range(1, 10+1)]; an exception raised earlier ends
    the loop.  [compile], [del] and [gc.collect] change nothing that the
    run observes. *)
Definition run_fold (df_data : option features) (st : run) (f : nat) : run :=
  match raised st with
  | Some _ => st
  | None =>
      match df_data with
      | None => raise st [] TypeError
      | Some d =>
          match d f with
          | None => raise st [] LookupError
          | Some X_fold =>
              match option_map load_model (content (disk st) (model_path f)) with
              | None | Some None => raise st [] LoadError
              | Some (Some fold_model_rnn) =>
                  match fold_examples fold_model_rnn X_fold [] with
                  | (Ok robustness_values_rnn_fold, l) =>
                      let (fs, out) :=
                        save_pkl (list num) dump robustness_values_rnn_fold
                                 (fold_path f) (disk st) in
                      {| disk := fs; notices := notices st ++ out;
                         calls := calls st ++ l; raised := None |}
                  | (Raise e, l) => raise st l (Raised e)
                  | (Diverge, l) => raise st l NoFuel
                  end
              end
          end
      end
  end.

Definition run_over (df_data : option features) (folds : list nat) (st : run) : run :=
  fold_left (run_fold df_data) folds st.

Definition run_folds (df_data : option features) (st : run) : run :=
  run_over df_data (seq 1 10) st.

(** The last two cells: the features are loaded, then the folds are run. *)
Definition notebook (fs : filesystem) : run :=
  let (df_data, out) := load_pkl features loads features_path fs in
  run_folds df_data (start fs out).

(** The robustness values of fold [f], when the fold can be run on the
    files [fs]. *)
Definition fold_values (d : features) (fs : filesystem) (f : nat) : option (list num) :=
  match d f, option_map load_model (content fs (model_path f)) with
  | Some X_fold, Some (Some fold_model_rnn) =>
      match fold_examples fold_model_rnn X_fold [] with
      | (Ok values, _) => Some values
      | _ => None
      end
  | _, _ => None
  end.

End Driver.

(** Two sets of files with the same model files. *)
Definition same_models (fs fs' : filesystem) : Prop :=
  forall f, content fs (model_path f) = content fs' (model_path f).

(** Doubles for the run over the folds: every fold has the same two
    examples of shape [(1, 2)], or every fold but the third; every model
    file loads as [model_near9]; a pickle that writes one byte for each
    value; files that can all be read, and can be written or not. *)
Definition two_examples : list (ndarray F64) :=
  [arr64 [1; 2] [0.5; 0.25]%float; arr64 [1; 2] [0.25; 0.5]%float].

Definition same_folds : @features F64 := fun _ => Some two_examples.

Definition no_fold_3 : @features F64 :=
  fun f => if f =? 3 then None else Some two_examples.

Definition load_near9 (b : list Byte.byte) : option (Model F64) := Some model_near9.

Definition dump_zeros (values : list float) : list Byte.byte * bool :=
  (map (fun _ => Byte.x00) values, true).

Definition open_disk : filesystem :=
  {| content := fun _ => Some []; writable := fun _ => true |}.

Definition read_only_disk : filesystem :=
  {| content := fun _ => Some []; writable := fun _ => false |}.

(** * Properties *)

(** ** The monad *)

Lemma bind_Ok_inv {A B : Type} (m : M A) (f : A -> M B) (b : B) (l : list event) :
  bind m f = (Ok b, l) ->
  exists a l1 l2, m = (Ok a, l1) /\ f a = (Ok b, l2) /\ l = l1 ++ l2.
Proof.
  unfold bind. destruct m as [[a | e | ] l1]; try discriminate.
  destruct (f a) as [o l2] eqn:Hf. intros H. inversion H; subst.
  exists a, l1, l2. auto.
Qed.

Lemma bind_Ok {A B : Type} (m : M A) (f : A -> M B) (a : A) (l : list event) :
  m = (Ok a, l) -> bind m f = (fst (f a), l ++ snd (f a)).
Proof. intros ->. unfold bind. now destruct (f a). Qed.

Lemma lift_Ok_inv {A : Type} (o : outcome A) (a : A) (l : list event) :
  lift o = (Ok a, l) -> o = Ok a /\ l = [].
Proof. unfold lift. intros H. inversion H. auto. Qed.

Lemma ret_Ok_inv {A : Type} (a b : A) (l : list event) :
  ret a = (Ok b, l) -> a = b /\ l = [].
Proof. unfold ret. intros H. inversion H. auto. Qed.

Lemma terminates_ret {A : Type} (a : A) : terminates (ret a).
Proof. discriminate. Qed.

Lemma terminates_tell (e : event) : terminates (tell e).
Proof. discriminate. Qed.

Lemma terminates_lift {A : Type} (o : outcome A) : oterminates o -> terminates (lift o).
Proof. auto. Qed.

Lemma terminates_bind {A B : Type} (m : M A) (f : A -> M B) :
  terminates m -> (forall a l, m = (Ok a, l) -> terminates (f a)) ->
  terminates (bind m f).
Proof.
  unfold terminates, bind. intros Hm Hf.
  destruct m as [[a | e | ] l]; simpl in *; try congruence.
  specialize (Hf a l eq_refl). now destruct (f a).
Qed.

Lemma oterminates_obind {A B : Type} (m : outcome A) (f : A -> outcome B) :
  oterminates m -> (forall a, oterminates (f a)) -> oterminates (obind m f).
Proof. unfold oterminates. destruct m; simpl; auto; congruence. Qed.

Lemma oterminates_list_get {A : Type} (l : list A) (i : nat) : oterminates (list_get l i).
Proof. unfold oterminates, list_get. destruct (nth_error l i); discriminate. Qed.

Lemma oterminates_omap2 {A B C : Type} (f : A -> B -> outcome C) (l : list A) (m : list B) :
  (forall a b, oterminates (f a b)) -> oterminates (omap2 f l m).
Proof.
  intros Hf. revert m. induction l as [| a l IH]; intros [| b m]; simpl; try discriminate.
  apply oterminates_obind; [apply Hf |]. intros c.
  apply oterminates_obind; [apply IH |]. discriminate.
Qed.

Lemma oterminates_ofold {A B : Type} (f : A -> B -> outcome A) (l : list B) (acc : A) :
  (forall a b, oterminates (f a b)) -> oterminates (ofold f l acc).
Proof.
  intros Hf. revert acc. induction l as [| b l IH]; intros acc; simpl; [discriminate |].
  apply oterminates_obind; auto.
Qed.

Create HintDb term discriminated.
#[export] Hint Resolve terminates_ret terminates_tell terminates_lift
  oterminates_list_get oterminates_omap2 oterminates_ofold : term.

(** ** Termination of every part of [deepfool] *)

Section Termination.
Context {NumT : Scalar}.
Implicit Types (a b : ndarray NumT) (x : list (ndarray NumT)).

Lemma oterminates_arr_binop (f : num -> num -> num) a b : oterminates (arr_binop f a b).
Proof. unfold oterminates, arr_binop. destruct shape_eqb; discriminate. Qed.

Lemma oterminates_arr_get0 a : oterminates (arr_get0 a).
Proof.
  unfold oterminates, arr_get0. destruct (shape a) as [| n s]; [discriminate |].
  destruct (n =? 0); discriminate.
Qed.

Lemma oterminates_arr_iadd a b : oterminates (arr_iadd a b).
Proof. unfold oterminates, arr_iadd. destruct broadcastable; discriminate. Qed.

Lemma oterminates_np_array x : oterminates (np_array x).
Proof. unfold oterminates, np_array. destruct homogeneous; discriminate. Qed.

Lemma oterminates_argmax (v : list num) : oterminates (argmax v).
Proof. apply oterminates_list_get. Qed.

Lemma oterminates_tensor_get (results : list num) (k : nat) :
  oterminates (tensor_get results k).
Proof. unfold oterminates, tensor_get. destruct (nth_error results k); discriminate. Qed.

Hint Resolve oterminates_arr_binop oterminates_arr_get0 oterminates_arr_iadd
  oterminates_np_array oterminates_argmax oterminates_tensor_get : term.

Ltac term_step :=
  first
    [ solve [ eauto with term ]
    | match goal with |- terminates (bind _ _) => apply terminates_bind; [| intros ? ? _ ] end
    | match goal with |- terminates (lift _) => apply terminates_lift end
    | match goal with |- oterminates (obind _ _) => apply oterminates_obind; [| intros ? ] end
    | match goal with |- terminates (let '(_, _) := ?p in _) => destruct p end
    | match goal with |- terminates (if ?c then _ else _) => destruct c end ].

Lemma terminates_predict (model : Model NumT) x : terminates (predict model x).
Proof. unfold predict. repeat term_step. Qed.

Lemma terminates_get_gradient (model : Model NumT) x (k : nat) :
  terminates (get_gradient model x k).
Proof. unfold get_gradient. repeat term_step. Qed.

Hint Resolve terminates_predict terminates_get_gradient : term.

Lemma terminates_scan_class (model : Model NumT) x (label_x0 : nat) x' st (k : nat) :
  terminates (scan_class model x label_x0 x' st k).
Proof.
  unfold scan_class. destruct (k =? label_x0); [apply terminates_ret |].
  repeat term_step.
Qed.

Lemma terminates_scan (model : Model NumT) x (label_x0 : nat) x' ks st :
  terminates (scan model x label_x0 x' ks st).
Proof.
  revert st. induction ks as [| k ks IH]; intros st; simpl; [apply terminates_ret |].
  apply terminates_bind; [apply terminates_scan_class | auto].
Qed.

Hint Resolve terminates_scan : term.

Lemma terminates_iteration (model : Model NumT) x0 eta (label_x0 : nat) st :
  terminates (iteration model x0 eta label_x0 st).
Proof.
  unfold iteration. repeat term_step.
Qed.

Lemma oterminates_sum_history x0 (history : list (list (ndarray NumT))) :
  oterminates (sum_history x0 history).
Proof.
  unfold sum_history. apply oterminates_ofold. intros r_sum i.
  apply oterminates_ofold. intros acc r_i. unfold add_snapshot.
  repeat (apply oterminates_obind; [eauto with term | intros ?]). discriminate.
Qed.

End Termination.

(** ** The main loop stops within [max_iter] iterations *)

Section MainLoop.
Context {NumT : Scalar}.
Variable model : Model NumT.
Variable x0 : list (ndarray NumT).
Variable eta : num.
Variable max_iter : Z.

Ltac inv_M :=
  repeat match goal with
    | H : bind _ _ = (Ok _, _) |- _ =>
        apply bind_Ok_inv in H; destruct H as (? & ? & ? & ? & ? & ?)
    | H : (let '(_, _) := ?p in _) = _ |- _ => destruct p
    | H : lift _ = (Ok _, _) |- _ => apply lift_Ok_inv in H; destruct H as [H ?]
    | H : ret _ = (Ok _, _) |- _ => apply ret_Ok_inv in H; destruct H as [H ?]
    | H : tell _ = (Ok _, _) |- _ => inversion H; clear H
    end; subst.

(** What one iteration that returns has done. *)
Lemma iteration_Ok_inv (label_x0 : nat) (st st' : loop_state) (l : list event) :
  iteration model x0 eta label_x0 st = (Ok st', l) ->
  exists grad f_xi win l1 l2 xi_new,
    get_gradient model (xi st) label_x0 = (Ok (grad, f_xi), l1) /\
    scan model (xi st) label_x0 grad class_range
         {| w_l := zeros_like x0; f_l := nzero; fk_wk_min := Inf |} = (Ok win, l2) /\
    let ri := map (arr_scale (ri_const (f_l win) (w_l win))) (w_l win) in
    omap2 (fun xi_item ri_item => arr_add xi_item (arr_scale (nadd n_one eta) ri_item))
          (xi st) ri = Ok xi_new /\
    np_array xi_new = Ok (xi st') /\
    argmax (forward model (xi st')) = Ok (label_xi st') /\
    r st' = r st ++ [ri] /\
    loop_i st' = (loop_i st + 1)%Z /\
    l = l1 ++ l2 ++ [Predict].
Proof.
  unfold iteration, predict. intros H. inv_M. simpl.
  do 6 eexists. repeat split; eauto.
Qed.

Lemma main_loop_fuel (fuel label_x0 : nat) (st : loop_state) :
  (max_iter - loop_i st <= Z.of_nat fuel)%Z ->
  terminates (main_loop model x0 eta max_iter fuel label_x0 st) /\
  forall st' l,
    main_loop model x0 eta max_iter fuel label_x0 st = (Ok st', l) ->
    (loop_i st <= loop_i st' <= Z.max (loop_i st) max_iter)%Z.
Proof.
  revert st. induction fuel as [| fuel IH]; intros st Hfuel; simpl;
    destruct ((label_xi st =? label_x0) && (loop_i st <? max_iter)%Z) eqn:Hc.
  - apply andb_prop in Hc. destruct Hc as [_ Hc]. apply Z.ltb_lt in Hc. lia.
  - split; [apply terminates_ret |]. intros st' l H.
    apply ret_Ok_inv in H. destruct H as [<- _]. lia.
  - apply andb_prop in Hc. destruct Hc as [_ Hc]. apply Z.ltb_lt in Hc. split.
    + apply terminates_bind; [apply terminates_iteration |].
      intros st1 l1 H1. apply iteration_Ok_inv in H1.
      destruct H1 as (? & ? & ? & ? & ? & ? & _ & _ & _ & _ & _ & _ & Hi & _).
      apply IH. lia.
    + intros st' l H. apply bind_Ok_inv in H.
      destruct H as (st1 & l1 & l2 & H1 & H2 & _).
      apply iteration_Ok_inv in H1.
      destruct H1 as (? & ? & ? & ? & ? & ? & _ & _ & _ & _ & _ & _ & Hi & _).
      apply IH in H2; lia.
  - split; [apply terminates_ret |]. intros st' l H.
    apply ret_Ok_inv in H. destruct H as [<- _]. lia.
Qed.

(** A main loop that returns has run its body [k] times, for a [k] within
    the fuel, and counted them in [loop_i]. *)
Lemma main_loop_count (fuel label_x0 : nat) (st st' : loop_state) (l : list event) :
  main_loop model x0 eta max_iter fuel label_x0 st = (Ok st', l) ->
  exists k, k <= fuel /\
            iterations model x0 eta k label_x0 st = (Ok st', l) /\
            loop_i st' = (loop_i st + Z.of_nat k)%Z.
Proof.
  revert st l. induction fuel as [| fuel IH]; intros st l; simpl;
    destruct ((label_xi st =? label_x0) && (loop_i st <? max_iter)%Z).
  - discriminate.
  - intros H. exists 0. split; [lia |]. split; [exact H |].
    apply ret_Ok_inv in H. destruct H as [<- _]. lia.
  - intros H. apply bind_Ok_inv in H. destruct H as (st1 & l1 & l2 & H1 & H2 & ->).
    destruct (IH _ _ H2) as (k & Hk & Hits & Hl).
    exists (S k). split; [lia |]. split.
    + simpl. rewrite (bind_Ok _ _ _ _ H1), Hits. reflexivity.
    + apply iteration_Ok_inv in H1.
      destruct H1 as (? & ? & ? & ? & ? & ? & _ & _ & _ & _ & _ & _ & Hi & _). lia.
  - intros H. exists 0. split; [lia |]. split; [exact H |].
    apply ret_Ok_inv in H. destruct H as [<- _]. lia.
Qed.

End MainLoop.

(** ** [argsort] and [argmax] *)

(** The insertion sort returns every index once, whatever the comparison. *)
Section Insertion_sort_facts.
Variable A : Type.
Variable before : A -> A -> bool.
Variable d : A.
Variable v : list A.

Lemma insert_idx_perm (i : nat) (l : list nat) :
  Permutation (insert_idx before d v i l) (i :: l).
Proof.
  induction l as [| j l IH]; simpl; [reflexivity |].
  destruct (before (nth i v d) (nth j v d)); [reflexivity |].
  rewrite IH. apply perm_swap.
Qed.

Lemma fold_insert_perm (idxs acc : list nat) :
  Permutation (fold_left (fun sorted i => insert_idx before d v i sorted) idxs acc)
              (rev idxs ++ acc).
Proof.
  revert acc. induction idxs as [| i idxs IH]; intros acc; simpl; [reflexivity |].
  rewrite IH, insert_idx_perm, <- app_assoc. simpl.
  apply Permutation_app_head. reflexivity.
Qed.

Lemma insertion_argsort_perm :
  Permutation (insertion_argsort before d v) (seq 0 (length v)).
Proof.
  unfold insertion_argsort. rewrite fold_insert_perm, app_nil_r.
  symmetry. apply Permutation_rev.
Qed.

End Insertion_sort_facts.

Lemma F64_argsort_permutes (v : list float) : @argsort_permutes F64 v.
Proof. apply insertion_argsort_perm. Qed.

Lemma Real_argsort_permutes (v : list R) : @argsort_permutes Real v.
Proof. apply insertion_argsort_perm. Qed.

(** The label, when [argsort] returns every index once. *)
Section Argmax.
Context {NumT : Scalar}.
Variable v : list num.
Hypothesis argsort_perm : argsort_permutes v.

Lemma argsort_length : length (argsort v) = length v.
Proof. rewrite (Permutation_length argsort_perm). apply length_seq. Qed.

(** On a non-empty score vector [argmax] returns the last index of
    [argsort], an index of the vector. *)
Lemma argmax_Ok : v <> [] -> exists l, argmax v = Ok l /\ l < length v.
Proof.
  intros Hne. unfold argmax.
  pose proof argsort_length as Hl. pose proof argsort_perm as Hp.
  unfold argsort_permutes in Hp. revert Hl Hp. generalize (argsort v).
  intros p Hl Hp. destruct p as [| j q] using rev_ind.
  - destruct v; [contradiction | discriminate].
  - rewrite rev_app_distr. simpl. exists j. split; [reflexivity |].
    assert (Hin : In j (q ++ [j])) by (apply in_or_app; right; now left).
    apply (Permutation_in _ Hp) in Hin. apply in_seq in Hin. lia.
Qed.

Lemma argmax_lt (l : nat) : argmax v = Ok l -> l < length v.
Proof.
  intros H. destruct (Nat.eq_dec (length v) 0) as [Hv | Hne].
  - pose proof argsort_length as Hl. unfold argmax in H. rewrite Hv in Hl.
    revert H Hl. generalize (argsort v). intros [| j p] H Hl; discriminate.
  - assert (Hne' : v <> []) by (intros E; now rewrite E in Hne).
    destruct (argmax_Ok Hne') as (l' & H' & Hl). congruence.
Qed.

End Argmax.

(** ** The whole of [deepfool] *)

Section Deepfool_facts.
Context {NumT : Scalar}.
Variable model : Model NumT.
Variable x0 : list (ndarray NumT).
Variable eta : num.

Lemma ofold_skip {A B : Type} (l : list B) (acc : A) :
  ofold (fun a _ => Ok a) l acc = Ok acc.
Proof. induction l; simpl; auto. Qed.

Lemma sum_history_nil : sum_history x0 [] = Ok (zeros_like x0).
Proof. unfold sum_history. simpl. apply ofold_skip. Qed.

Lemma zeros_like_shape : map shape (zeros_like x0) = map shape x0.
Proof. unfold zeros_like. rewrite map_map. reflexivity. Qed.

Lemma zeros_like_data : all_zero (zeros_like x0).
Proof.
  unfold all_zero, zeros_like. apply Forall_map, Forall_forall. intros a _. simpl.
  apply Forall_forall. intros z Hz. now apply repeat_spec in Hz.
Qed.

(** [deepfool] as the composition of its three parts. *)
Lemma deepfool_unfold (max_iter : Z) (label_x0 : nat) :
  argmax (forward model x0) = Ok label_x0 ->
  deepfool model x0 eta max_iter =
  bind (tell Predict)
    (fun _ => bind (main_loop model x0 eta max_iter (Z.to_nat max_iter) label_x0
                      (initial_state x0 label_x0))
                (fun st => bind (lift (sum_history x0 (r st)))
                             (fun r_sum => ret (r_sum, loop_i st, label_xi st)))).
Proof.
  intros H. unfold deepfool, deepfool_fuel, predict. simpl. rewrite H. simpl.
  destruct main_loop as [[st | e | ] l]; simpl; auto.
  destruct (sum_history x0 (r st)); simpl; auto.
Qed.

End Deepfool_facts.

(** The fields of [zeros_like x], one by one. *)
Lemma zeros_like_fields {NumT : Scalar} (x : list (ndarray NumT)) :
  Forall2 (fun x_input z =>
             shape z = shape x_input /\
             data z = repeat nzero (fold_right Nat.mul 1 (shape x_input)))
          x (zeros_like x).
Proof.
  unfold zeros_like. induction x as [| a x IH]; simpl; constructor; [| exact IH].
  split; reflexivity.
Qed.

(** C6.  With [max_iter = 0], a model that returns at least one score and an
    [argsort] that returns every index once, [deepfool] runs no iteration
    (its only call to the model is the first [predict]) and returns the
    count 0, the initial label, and a perturbation of zeros with the fields
    and the shapes of [x0]: field by field, the shape of the field of [x0]
    and as many zeros as the product of its dimensions. *)
Theorem deepfool_max_iter_zero {NumT : Scalar} (model : Model NumT)
  (x0 : list (ndarray NumT)) (eta : num) :
  forward model x0 <> [] ->
  argsort_permutes (forward model x0) ->
  exists label_x0 r_sum,
    argmax (forward model x0) = Ok label_x0 /\
    deepfool model x0 eta 0 = (Ok (r_sum, 0%Z, label_x0), [Predict]) /\
    length r_sum = length x0 /\
    map shape r_sum = map shape x0 /\
    all_zero r_sum /\
    Forall2 (fun x_input z =>
               shape z = shape x_input /\
               data z = repeat nzero (fold_right Nat.mul 1 (shape x_input)))
            x0 r_sum.
Proof.
  intros Hne Hperm. destruct (argmax_Ok _ Hperm Hne) as (label_x0 & Hl & _).
  exists label_x0, (zeros_like x0). split; [exact Hl |].
  split; [| split; [| split; [| split]]].
  - rewrite (deepfool_unfold _ _ _ _ _ Hl). simpl.
    rewrite Nat.eqb_refl. simpl. rewrite sum_history_nil. reflexivity.
  - unfold zeros_like. apply length_map.
  - apply zeros_like_shape.
  - apply zeros_like_data.
  - apply zeros_like_fields.
Qed.

Lemma deepfool_max_iter_zero_witness :
  exists label_x0 r_sum,
    argmax (forward model_near1 x_two_steps) = Ok label_x0 /\
    deepfool model_near1 x_two_steps 0%float 0 = (Ok (r_sum, 0%Z, label_x0), [Predict]) /\
    length r_sum = length x_two_steps /\
    map shape r_sum = map shape x_two_steps /\
    all_zero r_sum /\
    Forall2 (fun x_input z =>
               shape z = shape x_input /\
               data z = repeat (@nzero F64) (fold_right Nat.mul 1 (shape x_input)))
            x_two_steps r_sum.
Proof.
  apply (deepfool_max_iter_zero model_near1 x_two_steps 0%float).
  - vm_compute. discriminate.
  - apply F64_argsort_permutes.
Defined.

(** C7.  For [max_iter >= 0] the main loop never needs more fuel than
    [max_iter] iterations: [deepfool] returns or raises.  When it returns,
    the count [iters] is between 0 and [max_iter], and it is the number of
    times the body of the loop has run. *)
Theorem deepfool_iterations_bounded {NumT : Scalar} (model : Model NumT)
  (x0 : list (ndarray NumT)) (eta : num) (max_iter : Z) :
  (0 <= max_iter)%Z ->
  terminates (deepfool model x0 eta max_iter) /\
  forall r_sum iters label log,
    deepfool model x0 eta max_iter = (Ok (r_sum, iters, label), log) ->
    (0 <= iters <= max_iter)%Z /\
    exists label_x0 st log',
      argmax (forward model x0) = Ok label_x0 /\
      iterations model x0 eta (Z.to_nat iters) label_x0 (initial_state x0 label_x0)
      = (Ok st, log') /\
      loop_i st = iters /\ label_xi st = label.
Proof.
  intros Hmax. unfold deepfool, deepfool_fuel. split.
  - apply terminates_bind; [apply terminates_predict |]. intros f_x0 _ _.
    apply terminates_bind; [apply terminates_lift, oterminates_argmax |].
    intros label_x0 _ _.
    apply terminates_bind.
    + apply main_loop_fuel. simpl. lia.
    + intros st _ _. apply terminates_bind; [| intros; apply terminates_ret].
      apply terminates_lift, oterminates_sum_history.
  - intros r_sum iters label log H. unfold predict in H.
    apply bind_Ok_inv in H. destruct H as (f_x0 & ? & ? & Hp & H & _).
    apply bind_Ok_inv in Hp. destruct Hp as (? & ? & ? & _ & Hp & _).
    apply ret_Ok_inv in Hp. destruct Hp as [<- _].
    apply bind_Ok_inv in H. destruct H as (label_x0 & ? & ? & Hl & H & _).
    apply lift_Ok_inv in Hl. destruct Hl as [Hl _].
    apply bind_Ok_inv in H. destruct H as (st & ? & ? & Hloop & H & _).
    apply bind_Ok_inv in H. destruct H as (? & ? & ? & _ & H & _).
    apply ret_Ok_inv in H. destruct H as [H _]. inversion H; subst.
    pose proof (proj2 (main_loop_fuel model x0 eta max_iter (Z.to_nat max_iter)
                         label_x0 (initial_state x0 label_x0) ltac:(simpl; lia))
                  _ _ Hloop) as Hb.
    destruct (main_loop_count model x0 eta max_iter _ _ _ _ _ Hloop) as (k & Hk & Hits & Hi).
    simpl in Hb, Hi. split; [lia |].
    exists label_x0, st. eexists. split; [exact Hl |].
    rewrite Hi, Nat2Z.id. split; [exact Hits |]. split; [lia | reflexivity].
Qed.

Lemma deepfool_iterations_bounded_witness :
  terminates (deepfool model_near9 x_two_steps 0%float 3) /\
  forall r_sum iters label log,
    deepfool model_near9 x_two_steps 0%float 3 = (Ok (r_sum, iters, label), log) ->
    (0 <= iters <= 3)%Z /\
    exists label_x0 st log',
      argmax (forward model_near9 x_two_steps) = Ok label_x0 /\
      iterations model_near9 x_two_steps 0%float (Z.to_nat iters) label_x0
        (initial_state x_two_steps label_x0)
      = (Ok st, log') /\
      loop_i st = iters /\ label_xi st = label.
Proof.
  apply (deepfool_iterations_bounded model_near9 x_two_steps 0%float 3). lia.
Defined.

(** ** The calls of the class scan *)

Section Scan_log.
Context {NumT : Scalar}.
Variable model : Model NumT.

Lemma get_gradient_log (x : list (ndarray NumT)) (k : nat) :
  snd (get_gradient model x k) = [Gradient k].
Proof.
  unfold get_gradient. simpl. destruct (np_array x); simpl; auto.
  destruct tensor_get; reflexivity.
Qed.

Lemma scan_class_log (x grad : list (ndarray NumT)) (label_x0 : nat) (st : scan_state)
  (k : nat) :
  snd (scan_class model x label_x0 grad st k)
  = if k =? label_x0 then [] else [Gradient k].
Proof.
  unfold scan_class. destruct (k =? label_x0); [reflexivity |].
  pose proof (get_gradient_log x k) as Hg.
  destruct (get_gradient model x k) as [[[g f] | e |] l]; simpl in *; subst; auto.
  destruct omap2; simpl; auto.
  destruct (tensor_get f k); simpl; auto.
  destruct (tensor_get f label_x0); simpl; auto.
  destruct below; reflexivity.
Qed.

(** The scan calls [get_gradient] for the classes of [ks] other than the top
    label, in order, until one call raises. *)
Lemma scan_log (x grad : list (ndarray NumT)) (label_x0 : nat) (ks : list nat)
  (st : scan_state) :
  let others := filter (fun k => negb (k =? label_x0)) ks in
  (exists j, snd (scan model x label_x0 grad ks st) = map Gradient (firstn j others)) /\
  (returns (scan model x label_x0 grad ks st) ->
   snd (scan model x label_x0 grad ks st) = map Gradient others).
Proof.
  revert st. induction ks as [| k ks IH]; intros st; simpl.
  - split; [exists 0 |]; reflexivity.
  - pose proof (scan_class_log x grad label_x0 st k) as Hk.
    destruct (scan_class model x label_x0 grad st k) as [[st' | e |] l] eqn:Hc;
      simpl in Hk; subst l.
    + specialize (IH st'). simpl in IH. destruct IH as [[j Hj] IH].
      unfold bind.
      destruct (scan model x label_x0 grad ks st') as [o l'] eqn:Hs. simpl in *.
      destruct (k =? label_x0); simpl.
      * split; [exists j; exact Hj | exact IH].
      * split; [exists (S j); simpl; now rewrite Hj |].
        intros Hr. now rewrite IH.
    + simpl. split.
      * destruct (k =? label_x0); [exists 0 | exists 1]; reflexivity.
      * intros [a Ha]. discriminate.
    + simpl. split.
      * destruct (k =? label_x0); [exists 0 | exists 1]; reflexivity.
      * intros [a Ha]. discriminate.
Qed.

End Scan_log.

(** C3 as the specification states it fails: with a model of twelve classes,
    classes 10 and 11 are never scanned. *)
Lemma scan_ignores_classes_beyond_ten : ~ scan_follows_score_vector.
Proof.
  intros H.
  specialize (H F64 model_12 x_two_steps 0%float 0 (initial_state x_two_steps 0)).
  assert (Hr : returns (iteration model_12 x_two_steps 0%float 0
                          (initial_state x_two_steps 0))).
  { eexists. vm_compute. reflexivity. }
  specialize (H Hr). vm_compute in H. discriminate.
Qed.

(** With fewer than ten classes the scan raises at the first class that the
    model does not have. *)
Lemma scan_raises_on_three_classes :
  deepfool model_3 x_two_steps 0%float 1
  = (Raise InvalidArgumentError,
     [Predict; Gradient 0; Gradient 1; Gradient 2; Gradient 3]).
Proof. vm_compute. reflexivity. Qed.

(** C3, amended.  An iteration that returns has called [get_gradient] for
    the top label, then for the classes 0 to 9 other than the top label, in
    increasing order, then [predict]: ten classes whatever the length of the
    score vector.  They are the classes of the score vector when it has ten
    entries. *)
Theorem iteration_scans_ten_classes {NumT : Scalar} (model : Model NumT)
  (x0 : list (ndarray NumT)) (eta : num) (label_x0 : nat) (st : loop_state) :
  returns (iteration model x0 eta label_x0 st) ->
  snd (iteration model x0 eta label_x0 st)
  = Gradient label_x0 :: map Gradient (other_classes 10 label_x0) ++ [Predict]
  /\ (length (forward model (xi st)) = 10 ->
      snd (iteration model x0 eta label_x0 st)
      = Gradient label_x0
        :: map Gradient (other_classes (length (forward model (xi st))) label_x0)
        ++ [Predict]).
Proof.
  intros [st' Hr].
  assert (H : snd (iteration model x0 eta label_x0 st)
              = Gradient label_x0 :: map Gradient (other_classes 10 label_x0) ++ [Predict]).
  { destruct (iteration model x0 eta label_x0 st) as [o log] eqn:Hi.
    simpl in Hr. subst o. apply iteration_Ok_inv in Hi.
    destruct Hi as (grad & f_xi & win & l1 & l2 & xi_new & Hg & Hs & _ & _ & _ & _ & _ & ->).
    simpl. pose proof (get_gradient_log model (xi st) label_x0) as Hgl.
    rewrite Hg in Hgl. simpl in Hgl. subst l1.
    destruct (scan_log model (xi st) grad label_x0 class_range
                (Build_scan_state (zeros_like x0) nzero Inf)) as [_ Hsl].
    rewrite Hs in Hsl. simpl in Hsl. rewrite Hsl; [reflexivity |].
    exists win. reflexivity. }
  split; [exact H |]. intros ->. exact H.
Qed.

Lemma iteration_scans_ten_classes_witness :
  snd (iteration model_near1 x_two_steps 0%float 0 (initial_state x_two_steps 0))
  = Gradient 0 :: map Gradient (other_classes 10 0) ++ [Predict]
  /\ (length (forward model_near1 (xi (initial_state x_two_steps 0))) = 10 ->
      snd (iteration model_near1 x_two_steps 0%float 0 (initial_state x_two_steps 0))
      = Gradient 0
        :: map Gradient
             (other_classes (length (forward model_near1 (xi (initial_state x_two_steps 0)))) 0)
        ++ [Predict]).
Proof.
  apply (iteration_scans_ten_classes model_near1 x_two_steps 0%float 0
           (initial_state x_two_steps 0)).
  eexists. vm_compute. reflexivity.
Defined.

(** ** Which class the scan keeps *)

Section Scan_bound.
Context {NumT : Scalar}.
Variable model : Model NumT.

Lemma scan_class_bound (x grad : list (ndarray NumT)) (label_x0 : nat)
  (st st' : scan_state) (k : nat) (l : list event) :
  scan_class model x label_x0 grad st k = (Ok st', l) ->
  fk_wk_min st' = fk_wk_min st.
Proof.
  unfold scan_class. destruct (k =? label_x0).
  - intros H. apply ret_Ok_inv in H. now destruct H as [<- _].
  - intros H.
    repeat match goal with
      | H : bind _ _ = (Ok _, _) |- _ =>
          apply bind_Ok_inv in H; destruct H as (? & ? & ? & ? & H & ?)
      | H : (let '(_, _) := ?p in _) = _ |- _ => destruct p
      end.
    destruct below; apply ret_Ok_inv in H; now destruct H as [<- _].
Qed.

(** The bound [fk_wk_min] is the same after the scan as before it: every
    class is compared with the initial [np.inf]. *)
Lemma scan_bound (x grad : list (ndarray NumT)) (label_x0 : nat) (ks : list nat)
  (st st' : scan_state) (l : list event) :
  scan model x label_x0 grad ks st = (Ok st', l) ->
  fk_wk_min st' = fk_wk_min st.
Proof.
  revert st l. induction ks as [| k ks IH]; intros st l; simpl; intros H.
  - apply ret_Ok_inv in H. now destruct H as [<- _].
  - apply bind_Ok_inv in H. destruct H as (st1 & l1 & l2 & H1 & H2 & _).
    apply IH in H2. apply scan_class_bound in H1. congruence.
Qed.

Lemma bind_ret_l {A B : Type} (a : A) (f : A -> M B) : bind (ret a) f = f a.
Proof. unfold bind, ret. now destruct (f a). Qed.

Lemma bind_ext {A B : Type} (m : M A) (f g : A -> M B) :
  (forall a, f a = g a) -> bind m f = bind m g.
Proof. intros H. unfold bind. destruct m as [[a | e |] l]; try reflexivity. now rewrite H. Qed.

Lemma bind_assoc {A B C : Type} (m : M A) (f : A -> M B) (g : B -> M C) :
  bind (bind m f) g = bind m (fun a => bind (f a) g).
Proof.
  unfold bind. destruct m as [[a | e |] l]; try reflexivity.
  destruct (f a) as [[b | e |] l1]; try reflexivity.
  destruct (g b) as [o l2]. now rewrite app_assoc.
Qed.

Lemma scan_app (x grad : list (ndarray NumT)) (label_x0 : nat) (ks1 ks2 : list nat)
  (st : scan_state) :
  scan model x label_x0 grad (ks1 ++ ks2) st
  = bind (scan model x label_x0 grad ks1 st) (scan model x label_x0 grad ks2).
Proof.
  revert st. induction ks1 as [| k ks1 IH]; intros st; cbn [app scan].
  - now rewrite bind_ret_l.
  - rewrite bind_assoc. apply bind_ext. exact IH.
Qed.

(** Where every number is below [np.inf] (the reals; the finite floats), a
    class other than the top label replaces the class kept so far, whatever
    it was. *)
Hypothesis all_below_inf : forall a : num, nlt_inf a = true.

Lemma scan_class_overwrites (x grad : list (ndarray NumT)) (label_x0 : nat)
  (st1 st2 : scan_state) (k : nat) :
  fk_wk_min st1 = Inf -> fk_wk_min st2 = Inf -> k <> label_x0 ->
  fst (scan_class model x label_x0 grad st1 k)
  = fst (scan_class model x label_x0 grad st2 k).
Proof.
  intros H1 H2 Hk. unfold scan_class.
  apply Nat.eqb_neq in Hk. rewrite Hk.
  destruct (get_gradient model x k) as [[[g f] | e |] l]; simpl; try reflexivity.
  destruct omap2; simpl; try reflexivity.
  destruct (tensor_get f k); simpl; try reflexivity.
  destruct (tensor_get f label_x0); simpl; try reflexivity.
  rewrite H1, H2. simpl. rewrite all_below_inf. reflexivity.
Qed.

(** So the scan keeps what its last class alone gives. *)
Lemma scan_last (x grad : list (ndarray NumT)) (label_x0 : nat) (ks : list nat)
  (k : nat) (st st' : scan_state) :
  fk_wk_min st = Inf -> k <> label_x0 ->
  fst (scan model x label_x0 grad (ks ++ [k]) st) = Ok st' ->
  fst (scan model x label_x0 grad [k] st) = Ok st'.
Proof.
  intros Hb Hk. rewrite scan_app.
  destruct (scan model x label_x0 grad ks st) as [[st1 | e |] l] eqn:E;
    try discriminate.
  apply scan_bound in E. rewrite Hb in E.
  assert (Hone : forall s, fst (scan model x label_x0 grad [k] s)
                           = fst (scan_class model x label_x0 grad s k)).
  { intros s0. cbn [scan]. unfold bind.
    destruct (scan_class model x label_x0 grad s0 k) as [[s1 | e |] l2]; reflexivity. }
  unfold bind at 1.
  destruct (scan model x label_x0 grad [k] st1) as [o l1] eqn:E1.
  cbn [fst]. intros ->. apply (f_equal fst) in E1. cbn [fst] in E1.
  rewrite Hone in *. rewrite <- E1. now apply scan_class_overwrites.
Qed.

End Scan_bound.

(** C1, on the code.  The bound [fk_wk_min] of the scan is never lowered,
    so the scan keeps the last class that is below [np.inf], not the
    nearest one.  Over the reals, for every model whose top label is not 9,
    the scan of an iteration keeps what class 9 alone gives.  In binary64:
    - with [model_near1] the top class is 0 and class 1 is nearer than
      class 9 (0.19996 against 0.89403), and the scan keeps [w] and [f] of
      class 9;
    - with [model_tie] classes 8 and 9 are at the same distance, the
      smallest, and the scan keeps class 9, the higher index. *)
Theorem scan_keeps_last_class :
  (forall (NumT : Scalar) (model : Model NumT) x grad label_x0 ks st st' l,
      scan model x label_x0 grad ks st = (Ok st', l) ->
      fk_wk_min st' = fk_wk_min st)
  /\ (forall (model : Model Real) x x0 grad label_x0 st',
         label_x0 <> 9 ->
         fst (scan model x label_x0 grad class_range (scan_init x0)) = Ok st' ->
         fst (scan model x label_x0 grad [9] (scan_init x0)) = Ok st')
  /\ fst (scan model_near1 x_two_steps 0 (gradient model_near1 x_two_steps 0)
            class_range (scan_init x_two_steps))
     = Ok (@Build_scan_state F64 [arr64 [2; 1] [1; 2]%float] (-2)%float Inf)
  /\ PrimFloat.ltb (@fk_wk F64 (-1)%float [arr64 [2; 1] [3; 4]%float])
                   (@fk_wk F64 (-2)%float [arr64 [2; 1] [1; 2]%float]) = true
  /\ fst (scan model_tie x_two_steps 0 (gradient model_tie x_two_steps 0)
            class_range (scan_init x_two_steps))
     = Ok (@Build_scan_state F64 [arr64 [2; 1] [4; 3]%float] (-1)%float Inf)
  /\ @fk_wk F64 (-1)%float [arr64 [2; 1] [3; 4]%float]
     = @fk_wk F64 (-1)%float [arr64 [2; 1] [4; 3]%float].
Proof.
  split; [intros; eapply scan_bound; eassumption |].
  split.
  - intros model x x0 grad label_x0 st' Hl H.
    apply (@scan_last Real model (fun _ => eq_refl) x grad label_x0 (seq 0 9) 9);
      [reflexivity | auto | exact H].
  - repeat split; vm_compute; reflexivity.
Qed.

(** ** The sum after the loop *)

(** C2, on the code.  [x_two_steps] is one example of two time steps.  After
    one iteration with [model_near9] the recorded perturbation is
    [[c], [2c]] (with [c = 0x1.9984a1f6e3627p-2], about 0.39992); its
    field-wise sum is itself, and [deepfool] returns [[c], [c]]: the first
    row of the field, added to every row.  With the single time step of
    [x_one_step] the field is its first row, and [deepfool] returns the
    field-wise sum [[c, 2c]]. *)
Theorem r_sum_adds_first_row_only :
  let c1 := 0x1.9984a1f6e3627p-2%float in
  let c2 := 0x1.9984a1f6e3627p-1%float in
  let r_1 := [arr64 [2; 1] [c1; c2]] in
  fst (main_loop model_near9 x_two_steps 0%float 1 1 0 (initial_state x_two_steps 0))
  = Ok (@Build_loop_state F64 r_1 0 [r_1] 1%Z)
  /\ fst (deepfool model_near9 x_two_steps 0%float 1)
     = Ok ([arr64 [2; 1] [c1; c1]], 1%Z, 0)
  /\ fieldwise_sum x_two_steps [r_1] = Ok [arr64 [2; 1] [c1; c2]]
  /\ PrimFloat.eqb c1 c2 = false
  /\ fst (main_loop model_near9 x_one_step 0%float 1 1 0 (initial_state x_one_step 0))
     = Ok (@Build_loop_state F64 [arr64 [1; 2] [c1; c2]] 0 [[arr64 [1; 2] [c1; c2]]] 1%Z)
  /\ fst (deepfool model_near9 x_one_step 0%float 1)
     = Ok ([arr64 [1; 2] [c1; c2]], 1%Z, 0)
  /\ fieldwise_sum x_one_step [[arr64 [1; 2] [c1; c2]]] = Ok [arr64 [1; 2] [c1; c2]].
Proof. repeat split; vm_compute; reflexivity. Qed.

(** ** The label: which maximal score [argmax] returns *)

(** The last index of a sorted list is related to every other. *)
Lemma sorted_last {A : Type} (R : A -> A -> Prop) (q : list A) (l : A) :
  StronglySorted R (q ++ [l]) -> Forall (fun j => R j l) q.
Proof.
  induction q as [| a q IH]; simpl; intros H; [constructor |].
  apply StronglySorted_inv in H. destruct H as [Hs Hf].
  constructor; [| apply IH, Hs].
  rewrite Forall_forall in Hf. apply Hf, in_or_app. right. now left.
Qed.

Section Argmax_maximal.
Context {NumT : Scalar}.

(** With what numpy promises of [argsort], the label is an index of a
    maximal score. *)
Lemma argmax_maximal (v : list num) :
  v <> [] -> is_argsort v (argsort v) ->
  exists l, argmax v = Ok l /\ maximal_score v l.
Proof.
  intros Hne [Hp Hs]. unfold argmax. revert Hp Hs. generalize (argsort v).
  intros p Hp Hs. destruct p as [| l q] using rev_ind.
  - apply Permutation_length in Hp. rewrite length_seq in Hp.
    destruct v; [contradiction | discriminate].
  - rewrite rev_app_distr. simpl. exists l. split; [reflexivity |].
    assert (Hin : forall j, j < length v -> In j (q ++ [l])).
    { intros j Hj. apply (Permutation_in _ (Permutation_sym Hp)), in_seq. lia. }
    split.
    + assert (Hl : In l (q ++ [l])) by (apply in_or_app; right; now left).
      apply (Permutation_in _ Hp), in_seq in Hl. lia.
    + intros j Hj Hjl. specialize (Hin j Hj). apply in_app_or in Hin.
      destruct Hin as [Hin | [Hin | []]]; [| now contradiction Hjl].
      pose proof (sorted_last _ _ _ Hs) as Hf. rewrite Forall_forall in Hf.
      exact (Hf j Hin).
Qed.

(** A score greater than every other is the only maximal score. *)
Lemma maximal_score_unique (v : list num) (l l0 : nat) :
  maximal_score v l -> l0 < length v ->
  (forall j, j < length v -> j <> l0 -> nltb (nth j v nzero) (nth l0 v nzero) = true) ->
  l = l0.
Proof.
  intros [Hl Hmax] Hl0 Hgt. destruct (Nat.eq_dec l l0) as [| Hn]; [assumption |].
  pose proof (Hgt l Hl Hn) as H1. pose proof (Hmax l0 Hl0 (not_eq_sym Hn)) as H2.
  congruence.
Qed.

End Argmax_maximal.

(** The insertion sort with a strict order sorts. *)
Section Insertion_sorted.
Variable A : Type.
Variable before : A -> A -> bool.
Variable d : A.
Hypothesis before_irrefl : forall a, before a a = false.
Hypothesis before_trans :
  forall a b c, before a b = true -> before b c = true -> before a c = true.
Variable v : list A.

Local Abbreviation key i := (nth i v d).
Local Abbreviation ascends := (fun i j => before (key j) (key i) = false).

Lemma before_asym (a b : A) : before a b = true -> before b a = false.
Proof.
  intros H. destruct (before b a) eqn:E; [| reflexivity].
  pose proof (before_trans _ _ _ H E) as Hc. rewrite before_irrefl in Hc. discriminate.
Qed.

Lemma insert_idx_sorted (i : nat) (l : list nat) :
  StronglySorted ascends l -> StronglySorted ascends (insert_idx before d v i l).
Proof.
  induction 1 as [| j l Hs IH Hj]; simpl.
  - repeat constructor.
  - destruct (before (key i) (key j)) eqn:E.
    + constructor; [constructor; assumption |].
      constructor; [apply before_asym; exact E |].
      eapply Forall_impl; [| exact Hj]. intros a Ha. simpl in *.
      destruct (before (key a) (key i)) eqn:E'; [| reflexivity].
      pose proof (before_trans _ _ _ E' E). congruence.
    + constructor; [exact IH |].
      eapply Permutation_Forall; [symmetry; apply insert_idx_perm |].
      constructor; assumption.
Qed.

Lemma insertion_argsort_sorted : StronglySorted ascends (insertion_argsort before d v).
Proof.
  unfold insertion_argsort.
  assert (H : forall idxs acc, StronglySorted ascends acc ->
            StronglySorted ascends
              (fold_left (fun sorted i => insert_idx before d v i sorted) idxs acc)).
  { induction idxs as [| i idxs IH]; intros acc Hacc; simpl; [exact Hacc |].
    apply IH, insert_idx_sorted, Hacc. }
  apply H. constructor.
Qed.

End Insertion_sorted.

(** The order of the reals is strict, so the sort of [Real] does what numpy
    promises. *)
Lemma Real_ltb_irrefl (a : R) : @nltb Real a a = false.
Proof. simpl. destruct (Rlt_dec a a); [lra | reflexivity]. Qed.

Lemma Real_ltb_trans (a b c : R) :
  @nltb Real a b = true -> @nltb Real b c = true -> @nltb Real a c = true.
Proof.
  simpl. destruct (Rlt_dec a b), (Rlt_dec b c), (Rlt_dec a c);
    intros; try discriminate; try reflexivity; lra.
Qed.

Lemma Real_is_argsort (v : list R) : @is_argsort Real v (@argsort Real v).
Proof.
  split; [apply insertion_argsort_perm |].
  exact (insertion_argsort_sorted R (@nltb Real) 0%R Real_ltb_irrefl Real_ltb_trans v).
Qed.

(** numpy's order of floats is strict too, NaN included, so the sort of
    [F64] does what numpy promises. *)
Section Float_order.
Local Abbreviation sf_before x y :=
  (SFltb x y || (negb (SFeqb y y) && SFeqb x x)).

Ltac cmp_step :=
  match goal with
  | |- context [(?a ?= ?b)%Z] => destruct (Z.compare_spec a b)
  | |- context [PosDef.Pos.compare_cont Eq ?a ?b] =>
      change (PosDef.Pos.compare_cont Eq a b) with (Pos.compare a b);
      destruct (Pos.compare_spec a b)
  end; simpl.

Ltac cmp_cases :=
  repeat first [ solve [intros; first [discriminate | reflexivity]] | cmp_step ].

Lemma sf_before_irrefl (x : spec_float) : sf_before x x = false.
Proof.
  unfold SFltb, SFeqb.
  destruct x as [s | s | | s m e]; simpl; try reflexivity.
  - destruct s; reflexivity.
  - destruct s; rewrite Z.compare_refl;
      change (PosDef.Pos.compare_cont Eq m m) with (Pos.compare m m);
      rewrite Pos.compare_refl; reflexivity.
Qed.

Lemma sf_before_trans (x y z : spec_float) :
  sf_before x y = true -> sf_before y z = true -> sf_before x z = true.
Proof.
  unfold SFltb, SFeqb.
  destruct x as [sx | sx | | sx mx ex], y as [sy | sy | | sy my ey],
           z as [sz | sz | | sz mz ez]; simpl;
    try (destruct sx); try (destruct sy); try (destruct sz); simpl;
    try discriminate; try reflexivity;
    cmp_cases; intros; lia.
Qed.

Lemma float_before_spec (a b : float) :
  float_before a b = sf_before (Prim2SF a) (Prim2SF b).
Proof. unfold float_before. now rewrite ltb_spec, !eqb_spec. Qed.

Lemma float_before_irrefl (a : float) : float_before a a = false.
Proof. rewrite float_before_spec. apply sf_before_irrefl. Qed.

Lemma float_before_trans (a b c : float) :
  float_before a b = true -> float_before b c = true -> float_before a c = true.
Proof. rewrite !float_before_spec. apply sf_before_trans. Qed.

End Float_order.

Lemma F64_is_argsort (v : list float) : @is_argsort F64 v (@argsort F64 v).
Proof.
  split; [apply insertion_argsort_perm |].
  pose proof (insertion_argsort_sorted float float_before 0%float
                float_before_irrefl float_before_trans v) as Hs.
  change (@argsort F64 v) with (insertion_argsort float_before 0%float v).
  induction Hs as [| i p _ IH Hi]; constructor; [exact IH |].
  eapply Forall_impl; [| exact Hi]. intros j Hj. unfold not_above. simpl.
  unfold float_before in Hj. apply orb_false_iff in Hj. apply Hj.
Qed.

(** C4 as the specification states it fails.  A sort that keeps indices of
    equal values in index order does what numpy promises, and with it the
    label of two equal scores is 1, not 0.  Of two equal scores both orders
    of the indices are allowed, so the label can be either. *)
Lemma argmax_of_equal_scores :
  ~ argmax_breaks_ties_low
  /\ @is_argsort F64 [1; 1]%float [0; 1]
  /\ @is_argsort F64 [1; 1]%float [1; 0].
Proof.
  split; [| split].
  - intros H.
    destruct (H Real Real_is_argsort [1; 1]%R) as (l & Hl & _ & _ & Hlow);
      [discriminate |].
    assert (Ha : @argmax Real [1; 1]%R = Ok 1).
    { unfold argmax. cbn. destruct (Rlt_dec 1 1); [lra | reflexivity]. }
    rewrite Ha in Hl. inversion Hl; subst l.
    specialize (Hlow 0 (Nat.lt_0_succ 0)). simpl in Hlow.
    destruct (Rlt_dec 1 1); [lra | discriminate].
  - split; [reflexivity |]. repeat constructor.
  - split; [apply perm_swap |]. repeat constructor.
Qed.

(** C4, amended.  Let [argsort] do what numpy promises on the score vector
    [v]: every index once, no index before one of a smaller score.  Then the
    label of a non-empty [v] is an index of a maximal score (no other score
    is greater), and when one score is greater than every other the label is
    its index.  Which of several equal maximal scores is returned is not
    fixed.  The labels of [deepfool] are computed from the score vector
    alone, so the same scores give the same label: the label after an
    iteration is [argmax] of the scores of the new candidate, the initial
    label is [argmax] of the scores of [x0], and both are indices of a
    maximal score. *)
Theorem argmax_is_maximal {NumT : Scalar} (v : list num) :
  v <> [] ->
  is_argsort v (argsort v) ->
  (exists l, argmax v = Ok l /\ maximal_score v l /\
     forall l0, l0 < length v ->
       (forall j, j < length v -> j <> l0 ->
                  nltb (nth j v nzero) (nth l0 v nzero) = true) ->
       l = l0)
  /\ (forall (model : Model NumT) x0 eta label_x0 st st' log,
         iteration model x0 eta label_x0 st = (Ok st', log) ->
         argmax (forward model (xi st')) = Ok (label_xi st') /\
         (is_argsort (forward model (xi st')) (argsort (forward model (xi st'))) ->
          maximal_score (forward model (xi st')) (label_xi st')))
  /\ (forall (model : Model NumT) x0 eta max_iter r_sum iters label log,
         deepfool model x0 eta max_iter = (Ok (r_sum, iters, label), log) ->
         exists label_x0,
           argmax (forward model x0) = Ok label_x0 /\
           (is_argsort (forward model x0) (argsort (forward model x0)) ->
            maximal_score (forward model x0) label_x0)).
Proof.
  assert (Hlabel : forall (w : list num) (l : nat),
            argmax w = Ok l -> is_argsort w (argsort w) -> maximal_score w l).
  { intros w l Hl Hw.
    assert (Hne : w <> []).
    { intros E. pose proof (argmax_lt w (proj1 Hw) l Hl) as Hlt.
      rewrite E in Hlt. simpl in Hlt. lia. }
    destruct (argmax_maximal w Hne Hw) as (l' & Hl' & Hmax). congruence. }
  intros Hne Hv. split; [| split].
  - destruct (argmax_maximal v Hne Hv) as (l & Hl & Hmax).
    exists l. split; [exact Hl |]. split; [exact Hmax |].
    intros l0 Hl0 Hgt. exact (maximal_score_unique v l l0 Hmax Hl0 Hgt).
  - intros model x0 eta label_x0 st st' log Hi.
    apply iteration_Ok_inv in Hi.
    destruct Hi as (? & ? & ? & ? & ? & ? & _ & _ & _ & _ & Ha & _).
    split; [exact Ha | apply Hlabel, Ha].
  - intros model x0 eta max_iter r_sum iters label log H.
    unfold deepfool, deepfool_fuel, predict in H.
    apply bind_Ok_inv in H. destruct H as (f_x0 & ? & ? & Hp & H & _).
    apply bind_Ok_inv in Hp. destruct Hp as (? & ? & ? & _ & Hp & _).
    apply ret_Ok_inv in Hp. destruct Hp as [<- _].
    apply bind_Ok_inv in H. destruct H as (label_x0 & ? & ? & Hl & _ & _).
    apply lift_Ok_inv in Hl. destruct Hl as [Hl _].
    exists label_x0. split; [exact Hl | apply Hlabel, Hl].
Qed.

Lemma argmax_is_maximal_witness :
  (exists l, @argmax F64 [1; 3; 3; 2]%float = Ok l /\
     @maximal_score F64 [1; 3; 3; 2]%float l /\
     forall l0, l0 < length [1; 3; 3; 2]%float ->
       (forall j, j < length [1; 3; 3; 2]%float -> j <> l0 ->
                  @nltb F64 (nth j [1; 3; 3; 2]%float 0%float)
                            (nth l0 [1; 3; 3; 2]%float 0%float) = true) ->
       l = l0)
  /\ (forall (model : Model F64) x0 eta label_x0 st st' log,
         iteration model x0 eta label_x0 st = (Ok st', log) ->
         argmax (forward model (xi st')) = Ok (label_xi st') /\
         (is_argsort (forward model (xi st')) (argsort (forward model (xi st'))) ->
          maximal_score (forward model (xi st')) (label_xi st')))
  /\ (forall (model : Model F64) x0 eta max_iter r_sum iters label log,
         deepfool model x0 eta max_iter = (Ok (r_sum, iters, label), log) ->
         exists label_x0,
           argmax (forward model x0) = Ok label_x0 /\
           (is_argsort (forward model x0) (argsort (forward model x0)) ->
            maximal_score (forward model x0) label_x0)).
Proof.
  apply (@argmax_is_maximal F64 [1; 3; 3; 2]%float).
  - discriminate.
  - apply F64_is_argsort.
Defined.

(** ** Norms over the reals *)

Section Real_norms.
Local Open Scope R_scope.
Implicit Types (a : ndarray Real) (x w : list (ndarray Real)) (l : list R).

Lemma fold_Rplus_from (l : list R) (s : R) :
  fold_left Rplus l s = s + fold_left Rplus l 0.
Proof.
  revert s. induction l as [| y l IH]; intros s; simpl; [lra |].
  rewrite IH, (IH (0 + y)). lra.
Qed.

Lemma np_sum_cons (y : R) l : @np_sum Real (y :: l) = y + @np_sum Real l.
Proof. unfold np_sum. simpl. rewrite fold_Rplus_from. lra. Qed.

Lemma np_sum_app l l' : @np_sum Real (l ++ l') = @np_sum Real l + @np_sum Real l'.
Proof.
  unfold np_sum. simpl. rewrite fold_left_app, fold_Rplus_from. lra.
Qed.

Lemma np_sum_sq_nonneg l : 0 <= @np_sum Real (map (@sq Real) l).
Proof.
  unfold np_sum, sq. simpl.
  induction l as [| y l IH]; simpl; [lra |].
  rewrite fold_Rplus_from. nra.
Qed.

Lemma sq_linalg_norm a : @sq Real (linalg_norm a) = @np_sum Real (map (@sq Real) (data a)).
Proof.
  unfold sq at 1, linalg_norm, dot_self. simpl.
  apply sqrt_sqrt, np_sum_sq_nonneg.
Qed.

(** The sum of the squared norms of the fields is the sum of the squares of
    all their elements. *)
Lemma fields_sq_norm_flat x :
  @fields_sq_norm Real x = @np_sum Real (map (@sq Real) (concat (map data x))).
Proof.
  unfold fields_sq_norm.
  induction x as [| a x IH]; [reflexivity |].
  cbn [map concat].
  rewrite np_sum_cons, map_app, np_sum_app, IH, sq_linalg_norm. reflexivity.
Qed.

Lemma fields_sq_norm_nonneg x : 0 <= @fields_sq_norm Real x.
Proof. rewrite fields_sq_norm_flat. apply np_sum_sq_nonneg. Qed.

Lemma fields_norm_joint x : @fields_norm Real x = @joint_norm Real x.
Proof. unfold fields_norm, joint_norm. now rewrite fields_sq_norm_flat. Qed.

Lemma fields_norm_nonneg x : 0 <= @fields_norm Real x.
Proof. unfold fields_norm. simpl. apply sqrt_pos. Qed.

(** [np.linalg.norm] of a float is its absolute value. *)
Lemma linalg_norm_scalar (f : R) : @linalg_norm Real (@scalar_arr Real f) = Rabs f.
Proof.
  unfold linalg_norm, dot_self, np_sum, sq. simpl.
  replace (0 + f * f) with (Rsqr f) by (unfold Rsqr; lra).
  apply sqrt_Rsqr_abs.
Qed.

Lemma eps_pos : 0 < @eps Real.
Proof. simpl. lra. Qed.

End Real_norms.



(** ** The divisors *)

Section Divisors.
Local Open Scope R_scope.
Implicit Types (a : ndarray Real) (g w : list (ndarray Real)).

Lemma shape_eqb_refl (s : list nat) : shape_eqb s s = true.
Proof. unfold shape_eqb. destruct list_eq_dec; congruence. Qed.

Lemma sub_self_data (d : list R) :
  Forall (eq 0) (map (fun p => fst p - snd p) (combine d d)).
Proof. induction d as [| y d IH]; simpl; constructor; [lra | exact IH]. Qed.

(** A gradient minus itself is an array of zeros, field by field. *)
Lemma sub_self g : exists w, omap2 (@arr_sub Real) g g = Ok w /\ all_zero w.
Proof.
  induction g as [| a g (w & Hw & Hz)]; simpl.
  - exists []. split; [reflexivity | constructor].
  - unfold arr_sub at 1, arr_binop. rewrite shape_eqb_refl. simpl. rewrite Hw. simpl.
    eexists. split; [reflexivity |]. constructor; [apply sub_self_data | exact Hz].
Qed.

Lemma np_sum_sq_zero (d : list R) : Forall (eq 0) d -> @np_sum Real (map (@sq Real) d) = 0.
Proof.
  induction 1 as [| y d Hy _ IH]; [reflexivity |].
  cbn [map]. rewrite np_sum_cons, IH. subst y. unfold sq. simpl. lra.
Qed.

Lemma fields_sq_norm_zero w : all_zero w -> @fields_sq_norm Real w = 0.
Proof.
  intros Hz. rewrite fields_sq_norm_flat. apply np_sum_sq_zero.
  induction Hz as [| a w Ha _ IH]; simpl; [constructor |].
  apply Forall_app. split; assumption.
Qed.

Lemma divisor_bounds (w : list (ndarray Real)) :
  0 < @eps Real <= @w_k_norm Real w + @eps Real /\
  0 < @eps Real <= @w_l_squared_norm Real w + @eps Real.
Proof.
  pose proof eps_pos. pose proof (fields_norm_nonneg w).
  pose proof (fields_sq_norm_nonneg w).
  unfold w_k_norm, w_l_squared_norm. lra.
Qed.

End Divisors.

(** C9.  Over the reals both divisors are at least the stabilizer
    [1e-3 > 0], whatever the gradients: [fk_wk] divides [|f_k|] by
    [w_k_norm + 1e-3] and [ri_const] divides [|f_l|] by
    [w_l_squared_norm + 1e-3].  When a class has the gradients and the score
    of the top class, [w_k] is zero, both divisors are exactly [1e-3] and
    both quotients are 0; in binary64 the two quotients are [0.0] as well.
    In [model_twins] classes 0, 1 and 2 have the same score, the greatest,
    and the same gradient: whichever of the three is the label, an
    iteration returns.  (The division of the embedding is total, like that
    of numpy floats, which never raises.) *)
Theorem divisors_are_positive :
  (forall (f : R) (w : list (ndarray Real)),
      (0 < @eps Real <= @w_k_norm Real w + @eps Real)%R /\
      @fk_wk Real f w = (Rabs f / (@w_k_norm Real w + @eps Real))%R /\
      (0 < @eps Real <= @w_l_squared_norm Real w + @eps Real)%R /\
      @ri_const Real f w = (Rabs f / (@w_l_squared_norm Real w + @eps Real))%R)
  /\ (forall (g : list (ndarray Real)) (s : R),
         exists w_k, omap2 (@arr_sub Real) g g = Ok w_k /\
           (@w_k_norm Real w_k + @eps Real = @eps Real)%R /\
           (@w_l_squared_norm Real w_k + @eps Real = @eps Real)%R /\
           @fk_wk Real (s - s)%R w_k = 0%R /\
           @ri_const Real (s - s)%R w_k = 0%R)
  /\ @fk_wk F64 (9 - 9)%float [arr64 [2; 1] [0; 0]%float] = 0%float
  /\ @ri_const F64 (9 - 9)%float [arr64 [2; 1] [0; 0]%float] = 0%float
  /\ (forall label_x0, In label_x0 [0; 1; 2] ->
         returns (iteration model_twins x_two_steps 0%float label_x0
                    (initial_state x_two_steps label_x0))).
Proof.
  assert (Hq : forall (f : R) (w : list (ndarray Real)),
             @fk_wk Real f w = (Rabs f / (@w_k_norm Real w + @eps Real))%R /\
             @ri_const Real f w = (Rabs f / (@w_l_squared_norm Real w + @eps Real))%R).
  { intros f w. unfold fk_wk, ri_const. rewrite linalg_norm_scalar. split; reflexivity. }
  split; [| split; [| split; [| split]]]; try (vm_compute; reflexivity).
  - intros f w. destruct (divisor_bounds w) as [H1 H2]. destruct (Hq f w) as [H3 H4].
    repeat split; try apply H1; try apply H2; assumption.
  - intros g s. destruct (sub_self g) as (w_k & Hw & Hz). exists w_k.
    split; [exact Hw |].
    pose proof (fields_sq_norm_zero w_k Hz) as H0.
    assert (Hn : @w_k_norm Real w_k = 0%R).
    { unfold w_k_norm, fields_norm. rewrite H0. simpl. apply sqrt_0. }
    destruct (Hq (s - s)%R w_k) as [H3 H4]. rewrite H3, H4.
    unfold w_l_squared_norm. rewrite Hn, H0.
    replace (s - s)%R with 0%R by lra. rewrite Rabs_R0. simpl.
    repeat split; lra.
  - intros label_x0 [<- | [<- | [<- | []]]]; eexists; vm_compute; reflexivity.
Qed.

(** ** Saving and loading *)

Lemma loads_dump_bools (d : list bool) : loads_bools (fst (dump_bools d)) = Some d.
Proof.
  unfold dump_bools. simpl. induction d as [| [|] d IH]; simpl; auto; now rewrite IH.
Qed.

(** C10.  Let [pickle] read back what it wrote.  If [save_pkl(data, path)]
    printed no failure then [load_pkl(path)], run next, returns [data]
    without a failure; so a load that succeeds after a save that succeeded
    returns [data].  In any state of the files [load_pkl] either succeeds or
    prints its notice and returns [None]: it never raises. *)
Theorem load_after_save (obj : Type) (dump : obj -> list Byte.byte * bool)
  (loads : list Byte.byte -> option obj)
  (loads_dump : forall d b, dump d = (b, true) -> loads b = Some d)
  (data : obj) (path : String.string) (fs : filesystem) :
  snd (save_pkl obj dump data path fs) = [] ->
  let fs' := fst (save_pkl obj dump data path fs) in
  load_pkl obj loads path fs' = (Some data, [])
  /\ (forall to_return,
         load_pkl obj loads path fs' = (Some to_return, []) -> to_return = data)
  /\ (forall p fs0,
         load_pkl obj loads p fs0 = (None, [load_failure])
         \/ exists to_return, load_pkl obj loads p fs0 = (Some to_return, [])).
Proof.
  unfold save_pkl. destruct (writable fs path); [| discriminate].
  destruct (dump data) as [bytes [|]] eqn:Hd; [| discriminate].
  intros _. simpl.
  assert (Hl : load_pkl obj loads path (write fs path bytes) = (Some data, [])).
  { unfold load_pkl, write. simpl. rewrite String.eqb_refl.
    now rewrite (loads_dump _ _ Hd). }
  split; [exact Hl |]. split; [intros to_return H; congruence |].
  intros p fs0. unfold load_pkl.
  destruct (content fs0 p) as [b |]; [| now left].
  destruct (loads b) as [d |]; [right; now exists d | now left].
Qed.

Lemma load_after_save_witness :
  let data := [true; false; true] in
  snd (save_pkl _ dump_bools data fold1_path empty_disk) = [] /\
  let fs' := fst (save_pkl _ dump_bools data fold1_path empty_disk) in
  load_pkl _ loads_bools fold1_path fs' = (Some data, [])
  /\ (forall to_return,
         load_pkl _ loads_bools fold1_path fs' = (Some to_return, []) -> to_return = data)
  /\ (forall p fs0,
         load_pkl _ loads_bools p fs0 = (None, [load_failure])
         \/ exists to_return, load_pkl _ loads_bools p fs0 = (Some to_return, [])).
Proof.
  split; [reflexivity |].
  apply (load_after_save (list bool) dump_bools loads_bools).
  - intros d b H. pose proof (loads_dump_bools d) as Hl.
    rewrite H in Hl. exact Hl.
  - reflexivity.
Defined.

(** ** Runs that do not raise *)

Section Shapes.
Context {NumT : Scalar}.
Implicit Types (a b : ndarray NumT) (x y w : list (ndarray NumT)).

Lemma homogeneous_shapes x y : map shape x = map shape y -> homogeneous x = homogeneous y.
Proof.
  destruct x as [| a x], y as [| b y]; simpl; try discriminate; [reflexivity |].
  intros H. injection H as Ha H. rewrite Ha. clear Ha a.
  revert y H. induction x as [| a x IH]; intros [| c y] H; simpl; try discriminate;
    [reflexivity |].
  injection H as Hc H. rewrite Hc. f_equal. now apply IH.
Qed.

Lemma np_array_Ok x : homogeneous x = true -> np_array x = Ok x.
Proof. unfold np_array. now intros ->. Qed.

Lemma tensor_get_Ok (l : list num) (i : nat) :
  i < length l -> exists c, tensor_get l i = Ok c /\ nth_error l i = Some c.
Proof.
  intros H. unfold tensor_get. destruct (nth_error l i) as [c |] eqn:E.
  - exists c. auto.
  - apply nth_error_None in E. lia.
Qed.

Lemma list_get_Ok {A : Type} (l : list A) (i : nat) :
  i < length l -> exists c, list_get l i = Ok c /\ nth_error l i = Some c.
Proof.
  intros H. unfold list_get. destruct (nth_error l i) as [c |] eqn:E.
  - now exists c.
  - apply nth_error_None in E. lia.
Qed.

(** An operator that keeps the shape of arrays of one shape can be mapped
    over two lists of fields of the same shapes. *)
Lemma omap2_shapes (g : ndarray NumT -> ndarray NumT -> outcome (ndarray NumT)) x y :
  (forall a b, shape a = shape b -> exists c, g a b = Ok c /\ shape c = shape a) ->
  map shape x = map shape y ->
  exists w, omap2 g x y = Ok w /\ map shape w = map shape x.
Proof.
  intros Hg. revert y. induction x as [| a x IH]; intros [| b y] H; simpl in *;
    try discriminate.
  - exists []. auto.
  - injection H as Hab H. destruct (Hg a b Hab) as (c & -> & Hc).
    destruct (IH y H) as (w & -> & Hw). simpl. exists (c :: w). simpl.
    now rewrite Hc, Hw.
Qed.

Lemma arr_binop_shape (f : num -> num -> num) a b :
  shape a = shape b -> exists c, arr_binop f a b = Ok c /\ shape c = shape a.
Proof.
  intros H. unfold arr_binop. rewrite H, shape_eqb_refl. eexists. split; reflexivity.
Qed.

Lemma bcast_ok_refl (s : list nat) : bcast_ok s s = true.
Proof. induction s as [| n s IH]; simpl; [reflexivity |]. now rewrite Nat.eqb_refl, IH. Qed.

(** A sub-array along the first axis can be added to every such sub-array. *)
Lemma broadcastable_tail (n : nat) (s : list nat) : broadcastable (n :: s) s = true.
Proof.
  unfold broadcastable, pad_shape. simpl length.
  replace (S (length s) - length s) with 1 by lia. simpl repeat. simpl app.
  apply andb_true_intro. split; [apply Nat.leb_le; lia |].
  simpl. rewrite bcast_ok_refl. now rewrite orb_true_r.
Qed.

Lemma list_set_shapes w (i : nat) a b :
  nth_error w i = Some a -> shape b = shape a ->
  map shape (list_set w i b) = map shape w.
Proof.
  revert i. induction w as [| c w IH]; intros [| i] H Hs; simpl in *; try discriminate.
  - injection H as ->. now rewrite Hs.
  - f_equal. now apply IH.
Qed.

(** [r_sum[i] += r_i[i][0]] does not raise when field [i] has a first row. *)
Lemma add_snapshot_Ok (i n : nat) (s : list nat) (r_sum r_i : list (ndarray NumT)) :
  nth_error (map shape r_sum) i = Some (S n :: s) ->
  map shape r_i = map shape r_sum ->
  exists r_sum', add_snapshot i r_sum r_i = Ok r_sum' /\
                 map shape r_sum' = map shape r_sum.
Proof.
  intros Hi Hr. unfold add_snapshot.
  assert (Hlen : i < length r_sum).
  { rewrite <- (length_map shape). apply nth_error_Some. congruence. }
  destruct (list_get_Ok r_i i) as (a & -> & Ha).
  { rewrite <- (length_map shape), Hr, length_map. exact Hlen. }
  destruct (list_get_Ok r_sum i Hlen) as (acc & Hacc & Hacc').
  assert (Hsa : shape a = S n :: s).
  { apply (map_nth_error shape) in Ha. rewrite Hr, Hi in Ha. congruence. }
  assert (Hsacc : shape acc = S n :: s).
  { apply (map_nth_error shape) in Hacc'. rewrite Hi in Hacc'. congruence. }
  simpl. unfold arr_get0. rewrite Hsa. simpl. rewrite Hacc. simpl.
  unfold arr_iadd. simpl. rewrite Hsacc, broadcastable_tail. simpl.
  eexists. split; [reflexivity |].
  apply (list_set_shapes _ _ acc); [exact Hacc' | simpl; congruence].
Qed.

End Shapes.

Section Wellformed_runs.
Context {NumT : Scalar}.
Variable model : Model NumT.
Variable x0 : list (ndarray NumT).
Variable eta : num.
Variable n_classes : nat.
Variable label_x0 : nat.

Hypothesis classes_ge_10 : 10 <= n_classes.
Hypothesis forward_length : forall x, length (forward model x) = n_classes.
Hypothesis gradient_shape : forall x k, map shape (gradient model x k) = map shape x.
Hypothesis x0_homogeneous : homogeneous x0 = true.
Hypothesis label_lt : label_x0 < n_classes.
Hypothesis argsort_perm : forall v : list num, argsort_permutes v.

Implicit Types (x grad w : list (ndarray NumT)).

Lemma get_gradient_Ok x (k : nat) :
  map shape x = map shape x0 -> k < n_classes ->
  get_gradient model x k = (Ok (gradient model x k, forward model x), [Gradient k]).
Proof.
  intros Hx Hk. unfold get_gradient.
  rewrite np_array_Ok by (now rewrite (homogeneous_shapes _ _ Hx)).
  destruct (tensor_get_Ok (forward model x) k) as (c & Hc & _);
    [now rewrite forward_length |].
  simpl. rewrite Hc. reflexivity.
Qed.

Lemma scan_class_Ok x grad (st : scan_state) (k : nat) :
  map shape x = map shape x0 -> map shape grad = map shape x0 ->
  map shape (w_l st) = map shape x0 -> k < n_classes ->
  exists st' l, scan_class model x label_x0 grad st k = (Ok st', l) /\
                map shape (w_l st') = map shape x0.
Proof.
  intros Hx Hg Hw Hk. unfold scan_class.
  destruct (k =? label_x0); [exists st, []; now split |].
  rewrite (get_gradient_Ok x k Hx Hk).
  destruct (omap2_shapes arr_sub (gradient model x k) grad) as (w_k & Hsub & Hwk).
  { intros a b. apply arr_binop_shape. }
  { now rewrite gradient_shape, Hx, Hg. }
  destruct (tensor_get_Ok (forward model x) k) as (fk & Hfk & _);
    [now rewrite forward_length |].
  destruct (tensor_get_Ok (forward model x) label_x0) as (fl & Hfl & _);
    [now rewrite forward_length |].
  simpl. rewrite Hsub. simpl. rewrite Hfk. simpl. rewrite Hfl. simpl.
  destruct below; simpl; do 2 eexists; (split; [reflexivity |]); simpl; auto.
  now rewrite Hwk, gradient_shape.
Qed.

Lemma scan_Ok x grad (ks : list nat) (st : scan_state) :
  map shape x = map shape x0 -> map shape grad = map shape x0 ->
  map shape (w_l st) = map shape x0 -> Forall (fun k => k < n_classes) ks ->
  exists st' l, scan model x label_x0 grad ks st = (Ok st', l) /\
                map shape (w_l st') = map shape x0.
Proof.
  intros Hx Hg Hw Hks. revert st Hw.
  induction Hks as [| k ks Hk _ IH]; intros st Hw; simpl.
  - exists st, []. now split.
  - destruct (scan_class_Ok x grad st k Hx Hg Hw Hk) as (st1 & l1 & H1 & Hw1).
    destruct (IH st1 Hw1) as (st2 & l2 & H2 & Hw2).
    rewrite (bind_Ok _ _ _ _ H1), H2. simpl. exists st2, (l1 ++ l2). now split.
Qed.

Lemma class_range_lt : Forall (fun k => k < n_classes) class_range.
Proof.
  apply Forall_forall. intros k Hk. unfold class_range in Hk.
  apply in_seq in Hk. lia.
Qed.

(** One iteration from a candidate in the shape of [x0] returns, with a new
    candidate and a recorded perturbation in that shape. *)
Lemma iteration_Ok (st : loop_state) :
  map shape (xi st) = map shape x0 ->
  exists st' l ri,
    iteration model x0 eta label_x0 st = (Ok st', l) /\
    map shape (xi st') = map shape x0 /\
    r st' = r st ++ [ri] /\ map shape ri = map shape x0 /\
    loop_i st' = (loop_i st + 1)%Z.
Proof.
  intros Hx.
  pose proof (get_gradient_Ok (xi st) label_x0 Hx label_lt) as Hg.
  destruct (scan_Ok (xi st) (gradient model (xi st) label_x0) class_range
              (Build_scan_state (zeros_like x0) nzero Inf))
    as (win & l2 & Hs & Hw); auto.
  { now rewrite gradient_shape. }
  { apply zeros_like_shape. }
  { apply class_range_lt. }
  assert (Hri : map shape (map (arr_scale (ri_const (f_l win) (w_l win))) (w_l win))
                = map shape x0).
  { rewrite map_map. simpl. exact Hw. }
  destruct (omap2_shapes
              (fun xi_item ri_item => arr_add xi_item (arr_scale (nadd n_one eta) ri_item))
              (xi st) (map (arr_scale (ri_const (f_l win) (w_l win))) (w_l win)))
    as (xi_new & Hnew & Hsn).
  { intros a b Hab. apply arr_binop_shape. exact Hab. }
  { now rewrite Hx, Hri. }
  assert (Hh : np_array xi_new = Ok xi_new).
  { apply np_array_Ok.
    rewrite (homogeneous_shapes xi_new x0); [exact x0_homogeneous | congruence]. }
  destruct (argmax_Ok (forward model xi_new) (argsort_perm _)) as (label & Hl & _).
  { intros E. pose proof (forward_length xi_new) as Hlen. rewrite E in Hlen.
    simpl in Hlen. lia. }
  do 3 eexists. split.
  - unfold iteration, predict, bind, lift, tell, ret.
    rewrite Hg. cbv beta iota. rewrite Hs. cbv beta iota.
    rewrite Hnew. cbv beta iota. rewrite Hh. cbv beta iota.
    rewrite Hl. cbv beta iota. reflexivity.
  - simpl. repeat split; auto. congruence.
Qed.

End Wellformed_runs.

Section Sum_history.
Context {NumT : Scalar}.
Variable x0 : list (ndarray NumT).

(** Every field of [x0] has a first row. *)
Hypothesis x0_rows : Forall (fun a => exists n s, shape a = S n :: s) x0.

Lemma snapshots_Ok (i : nat) (history : list (list (ndarray NumT)))
  (r_sum : list (ndarray NumT)) :
  i < length x0 -> map shape r_sum = map shape x0 ->
  Forall (fun r_i => map shape r_i = map shape x0) history ->
  exists r_sum', ofold (add_snapshot i) history r_sum = Ok r_sum' /\
                 map shape r_sum' = map shape x0.
Proof.
  intros Hi Hs Hh. revert r_sum Hs.
  induction Hh as [| r_i history Hr _ IH]; intros r_sum Hs; simpl.
  - now exists r_sum.
  - destruct (nth_error x0 i) as [a |] eqn:Ha; [| apply nth_error_None in Ha; lia].
    pose proof (proj1 (Forall_forall _ _) x0_rows a (nth_error_In _ _ Ha))
      as (n & s & Hsa).
    destruct (add_snapshot_Ok i n s r_sum r_i) as (r_sum1 & H1 & Hs1).
    { rewrite Hs. rewrite (map_nth_error shape _ _ Ha). now rewrite Hsa. }
    { congruence. }
    rewrite H1. simpl. apply IH. congruence.
Qed.

Lemma sum_history_Ok (history : list (list (ndarray NumT))) :
  Forall (fun r_i => map shape r_i = map shape x0) history ->
  exists r_sum, sum_history x0 history = Ok r_sum /\ map shape r_sum = map shape x0.
Proof.
  intros Hh. unfold sum_history.
  assert (Hgen : forall idxs r_sum,
             Forall (fun i => i < length x0) idxs -> map shape r_sum = map shape x0 ->
             exists r_sum',
               ofold (fun r_sum i => ofold (add_snapshot i) history r_sum) idxs r_sum
               = Ok r_sum' /\ map shape r_sum' = map shape x0).
  { induction idxs as [| i idxs IH]; intros r_sum Hi Hs; simpl.
    - now exists r_sum.
    - inversion Hi as [| ? ? Hlt Hrest]; subst.
      destruct (snapshots_Ok i history r_sum) as (r1 & Hr1 & Hs1); auto.
      rewrite Hr1. simpl. now apply IH. }
  apply Hgen; [| apply zeros_like_shape].
  apply Forall_forall. intros i Hi. apply in_seq in Hi. lia.
Qed.

End Sum_history.

Section No_flip.
Context {NumT : Scalar}.
Variable model : Model NumT.
Variable x0 : list (ndarray NumT).
Variable eta : num.
Variable max_iter : Z.
Variable label_x0 : nat.

Lemma iterations_step (j : nat) (st st1 : loop_state) (l1 : list event) :
  iteration model x0 eta label_x0 st = (Ok st1, l1) ->
  fst (iterations model x0 eta (S j) label_x0 st)
  = fst (iterations model x0 eta j label_x0 st1).
Proof. intros H. simpl. now rewrite (bind_Ok _ _ _ _ H). Qed.

(** While the label does not flip, the main loop is the body run
    [max_iter - loop_i] times. *)
Lemma main_loop_iterations (n fuel : nat) (st : loop_state) :
  n <= fuel -> (loop_i st + Z.of_nat n = max_iter)%Z ->
  (forall j st', j <= n ->
        fst (iterations model x0 eta j label_x0 st) = Ok st' ->
        label_xi st' = label_x0) ->
  main_loop model x0 eta max_iter fuel label_x0 st
  = iterations model x0 eta n label_x0 st.
Proof.
  revert fuel st. induction n as [| n IH]; intros fuel st Hfuel Hi Hlabel.
  - assert (Hc : (loop_i st <? max_iter)%Z = false) by (apply Z.ltb_ge; lia).
    destruct fuel; simpl; rewrite Hc, andb_false_r; reflexivity.
  - destruct fuel as [| fuel]; [lia |].
    assert (Hc : (loop_i st <? max_iter)%Z = true) by (apply Z.ltb_lt; lia).
    assert (Hl : (label_xi st =? label_x0) = true).
    { apply Nat.eqb_eq. apply (Hlabel 0); [lia | reflexivity]. }
    simpl. rewrite Hc, Hl. simpl.
    destruct (iteration model x0 eta label_x0 st) as [[st1 | e |] l1] eqn:Hit;
      try reflexivity.
    unfold bind. rewrite IH; [reflexivity | lia | |].
    + apply iteration_Ok_inv in Hit.
      destruct Hit as (? & ? & ? & ? & ? & ? & _ & _ & _ & _ & _ & _ & Hli & _). lia.
    + intros j st' Hj H. apply (Hlabel (S j)); [lia |].
      now rewrite (iterations_step j st st1 l1 Hit).
Qed.

(** The body run [n] times adds [n] to the count and records [n]
    perturbations. *)
Lemma iterations_count (n : nat) (st st' : loop_state) (l : list event) :
  iterations model x0 eta n label_x0 st = (Ok st', l) ->
  loop_i st' = (loop_i st + Z.of_nat n)%Z /\ length (r st') = length (r st) + n.
Proof.
  revert st l. induction n as [| n IH]; intros st l H; simpl in H.
  - apply ret_Ok_inv in H. destruct H as [<- _]. lia.
  - apply bind_Ok_inv in H. destruct H as (st1 & l1 & l2 & H1 & H2 & _).
    apply IH in H2. apply iteration_Ok_inv in H1.
    destruct H1 as (? & ? & ? & ? & ? & ? & _ & _ & _ & _ & _ & Hr1 & Hi & _).
    rewrite Hr1, length_app in H2. simpl in H2. lia.
Qed.

Variable n_classes : nat.
Hypothesis classes_ge_10 : 10 <= n_classes.
Hypothesis forward_length : forall x, length (forward model x) = n_classes.
Hypothesis gradient_shape : forall x k, map shape (gradient model x k) = map shape x.
Hypothesis x0_homogeneous : homogeneous x0 = true.
Hypothesis label_lt : label_x0 < n_classes.
Hypothesis argsort_perm : forall v : list num, argsort_permutes v.

(** The body run [n] times returns, and records [n] perturbations in the
    shape of [x0]. *)
Lemma iterations_Ok (n : nat) (st : loop_state) :
  map shape (xi st) = map shape x0 ->
  Forall (fun r_i => map shape r_i = map shape x0) (r st) ->
  exists st' l,
    iterations model x0 eta n label_x0 st = (Ok st', l) /\
    Forall (fun r_i => map shape r_i = map shape x0) (r st') /\
    length (r st') = length (r st) + n /\
    loop_i st' = (loop_i st + Z.of_nat n)%Z.
Proof.
  revert st. induction n as [| n IH]; intros st Hx Hr.
  - exists st, []. simpl. repeat split; auto; lia.
  - destruct (iteration_Ok model x0 eta n_classes label_x0 classes_ge_10 forward_length
                gradient_shape x0_homogeneous label_lt argsort_perm st Hx)
      as (st1 & l1 & ri & Hit & Hx1 & Hr1 & Hri & Hl1).
    destruct (IH st1 Hx1) as (st' & l' & Hits & Hr' & Hlen & Hl').
    { rewrite Hr1. apply Forall_app. split; [exact Hr | now constructor]. }
    exists st', (l1 ++ l'). split.
    + simpl. rewrite (bind_Ok _ _ _ _ Hit), Hits. reflexivity.
    + repeat split; auto.
      * rewrite Hlen, Hr1, length_app. simpl. lia.
      * lia.
Qed.

End No_flip.

Lemma unflatten_shape (x : list (ndarray F64)) (d : list float) :
  map shape (unflatten x d) = map shape x.
Proof. revert d. induction x as [| a x IH]; intros d; simpl; [| rewrite IH]; reflexivity. Qed.

(** A run without a flip returns when nothing raises: take a classifier
    with a fixed number of classes, at least ten, whose gradients have the
    shape of the input, an input whose fields have one shape and a first
    row, and an [argsort] that returns every index once. *)
Lemma no_flip_run_returns {NumT : Scalar} (model : Model NumT)
  (x0 : list (ndarray NumT)) (eta : num) (max_iter : Z) (label_x0 : nat) :
  model_wf model -> input_wf x0 -> (forall v : list num, argsort_permutes v) ->
  (0 <= max_iter)%Z ->
  argmax (forward model x0) = Ok label_x0 ->
  (forall j st, j <= Z.to_nat max_iter ->
        fst (iterations model x0 eta j label_x0 (initial_state x0 label_x0)) = Ok st ->
        label_xi st = label_x0) ->
  exists st r_sum log,
    fst (iterations model x0 eta (Z.to_nat max_iter) label_x0 (initial_state x0 label_x0))
    = Ok st /\
    length (r st) = Z.to_nat max_iter /\
    sum_history x0 (r st) = Ok r_sum /\
    deepfool model x0 eta max_iter = (Ok (r_sum, max_iter, label_x0), log).
Proof.
  intros [(n & Hn & Hlen) Hgrad] [Hhom Hrows] Hperm Hmax Hlabel Hstay.
  assert (Hlt : label_x0 < n).
  { rewrite <- (Hlen x0). apply argmax_lt; [apply Hperm | exact Hlabel]. }
  destruct (iterations_Ok model x0 eta label_x0 n Hn Hlen Hgrad Hhom Hlt Hperm
              (Z.to_nat max_iter) (initial_state x0 label_x0))
    as (st & l & Hits & Hr & Hrlen & Hli); [reflexivity | constructor |].
  destruct (sum_history_Ok x0 Hrows (r st) Hr) as (r_sum & Hsum & _).
  exists st, r_sum. eexists. split; [now rewrite Hits |]. split; [exact Hrlen |].
  split; [exact Hsum |].
  rewrite (deepfool_unfold _ _ _ _ _ Hlabel).
  rewrite (main_loop_iterations model x0 eta max_iter label_x0 (Z.to_nat max_iter));
    [| lia | simpl; lia | exact Hstay].
  rewrite Hits. simpl. rewrite Hsum. simpl.
  rewrite (Hstay (Z.to_nat max_iter) st (Nat.le_refl _)) by (now rewrite Hits).
  simpl in Hli. rewrite Hli, Z2Nat.id by lia. reflexivity.
Qed.

(** C8, on the code.  Take a run in which the label is still [label_x0]
    after each of the first [max_iter] iterations.  The loop then stops
    after these [max_iter] iterations, and what [deepfool] does next is the
    sum after the loop: it returns what this sum gives, with the count
    [max_iter] and the label [label_x0].  The sum is not the accumulated
    perturbation: with [eta = -1] the candidate never moves, so the label of
    [model_near9] at [x_two_steps] never flips; two iterations record
    [[c], [2c]] twice, the accumulated perturbation is [[2c], [4c]], and
    [deepfool] returns [[2c], [2c]], the first row added to every row. *)
Theorem deepfool_without_flip :
  (forall (NumT : Scalar) (model : Model NumT) (x0 : list (ndarray NumT)) (eta : num)
          (max_iter : Z) (label_x0 : nat) (st : loop_state) (l : list event),
      (0 <= max_iter)%Z ->
      argmax (forward model x0) = Ok label_x0 ->
      iterations model x0 eta (Z.to_nat max_iter) label_x0 (initial_state x0 label_x0)
      = (Ok st, l) ->
      (forall j st_j, j <= Z.to_nat max_iter ->
          fst (iterations model x0 eta j label_x0 (initial_state x0 label_x0)) = Ok st_j ->
          label_xi st_j = label_x0) ->
      loop_i st = max_iter /\ label_xi st = label_x0 /\
      length (r st) = Z.to_nat max_iter /\
      deepfool model x0 eta max_iter
      = (obind (sum_history x0 (r st)) (fun r_sum => Ok (r_sum, max_iter, label_x0)),
         Predict :: l))
  /\ (exists c : float,
        PrimFloat.ltb 0 c = true /\
        let r_1 := [arr64 [2; 1] [c; c + c]%float] in
        argmax (forward model_near9 x_two_steps) = Ok 0
        /\ fst (iterations model_near9 x_two_steps (-1)%float 1 0
                  (initial_state x_two_steps 0))
           = Ok (@Build_loop_state F64 x_two_steps 0 [r_1] 1%Z)
        /\ fst (iterations model_near9 x_two_steps (-1)%float 2 0
                  (initial_state x_two_steps 0))
           = Ok (@Build_loop_state F64 x_two_steps 0 [r_1; r_1] 2%Z)
        /\ fst (deepfool model_near9 x_two_steps (-1)%float 2)
           = Ok ([arr64 [2; 1] [c + c; c + c]%float], 2%Z, 0)
        /\ fieldwise_sum x_two_steps [r_1; r_1]
           = Ok [arr64 [2; 1] [c + c; (c + c) + (c + c)]%float]
        /\ PrimFloat.eqb (c + c) ((c + c) + (c + c)) = false).
Proof.
  split.
  - intros NumT model x0 eta max_iter label_x0 st l Hmax Hlabel Hits Hstay.
    destruct (iterations_count model x0 eta label_x0 _ _ _ _ Hits) as [Hli Hlen].
    simpl in Hli, Hlen. rewrite Z2Nat.id in Hli by lia.
    assert (Hlast : label_xi st = label_x0).
    { apply (Hstay (Z.to_nat max_iter)); [lia | now rewrite Hits]. }
    split; [exact Hli |]. split; [exact Hlast |]. split; [exact Hlen |].
    rewrite (deepfool_unfold _ _ _ _ _ Hlabel).
    rewrite (main_loop_iterations model x0 eta max_iter label_x0 (Z.to_nat max_iter));
      [| lia | simpl; lia | exact Hstay].
    rewrite Hits. unfold bind, tell, lift, ret. cbv beta iota.
    destruct (sum_history x0 (r st)); simpl;
      rewrite ?Hli, ?Hlast, ?app_nil_r; reflexivity.
  - exists 0x1.9984a1f6e3627p-2%float. repeat split; vm_compute; reflexivity.
Qed.

(** * Further properties of the notebook's functions *)

(** ** Helpers *)

Lemma obind_Ok_inv {A B : Type} (m : outcome A) (f : A -> outcome B) (b : B) :
  obind m f = Ok b -> exists a, m = Ok a /\ f a = Ok b.
Proof. destruct m; simpl; try discriminate. eauto. Qed.

Lemma ofold_invariant {A B : Type} (P : A -> Prop) (f : A -> B -> outcome A)
  (l : list B) (acc r : A) :
  (forall a b a', P a -> f a b = Ok a' -> P a') ->
  P acc -> ofold f l acc = Ok r -> P r.
Proof.
  intros Hf. revert acc. induction l as [| b l IH]; intros acc Hacc; simpl.
  - intros H. now inversion H; subst.
  - intros H. apply obind_Ok_inv in H. destruct H as (a' & Ha & H).
    apply (IH a'); [eapply Hf; eassumption | exact H].
Qed.

(** ** The shape of the returned perturbation *)

Section Sum_shapes.
Context {NumT : Scalar}.

Lemma arr_iadd_shape (a b c : ndarray NumT) : arr_iadd a b = Ok c -> shape c = shape a.
Proof.
  unfold arr_iadd. destruct broadcastable; [| discriminate].
  intros H. inversion H. reflexivity.
Qed.

Lemma list_get_nth_error {A : Type} (l : list A) (i : nat) (a : A) :
  list_get l i = Ok a -> nth_error l i = Some a.
Proof. unfold list_get. destruct (nth_error l i); [| discriminate]. congruence. Qed.

Lemma add_snapshot_shapes (i : nat) (r_sum r_i r_sum' : list (ndarray NumT)) :
  add_snapshot i r_sum r_i = Ok r_sum' -> map shape r_sum' = map shape r_sum.
Proof.
  unfold add_snapshot. intros H.
  apply obind_Ok_inv in H. destruct H as (a & _ & H).
  apply obind_Ok_inv in H. destruct H as (first & _ & H).
  apply obind_Ok_inv in H. destruct H as (acc & Hacc & H).
  apply obind_Ok_inv in H. destruct H as (acc' & Hadd & H).
  inversion H; subst.
  apply (list_set_shapes _ _ acc).
  - now apply list_get_nth_error.
  - now apply arr_iadd_shape in Hadd.
Qed.

(** The sum after the loop keeps the fields and the shapes it starts with,
    those of [x0], whatever was recorded. *)
Lemma sum_history_shapes (x0 : list (ndarray NumT)) (history : list (list (ndarray NumT)))
  (r_sum : list (ndarray NumT)) :
  sum_history x0 history = Ok r_sum -> map shape r_sum = map shape x0.
Proof.
  unfold sum_history. intros H.
  apply (ofold_invariant (fun acc => map shape acc = map shape x0)) in H; auto.
  - intros acc i acc' Hacc Hi.
    apply (ofold_invariant (fun a => map shape a = map shape x0)) in Hi; auto.
    intros a r_i a' Ha Hs. apply add_snapshot_shapes in Hs. congruence.
  - apply zeros_like_shape.
Qed.

End Sum_shapes.

(** X1.  Whenever [deepfool] returns, the perturbation it returns has as many
    fields as [x0], and every field has the shape of the field of [x0] at the
    same index: with any model, well formed or not. *)
Theorem deepfool_perturbation_shape {NumT : Scalar} (model : Model NumT)
  (x0 : list (ndarray NumT)) (eta : num) (max_iter : Z)
  (r_sum : list (ndarray NumT)) (iters : Z) (label : nat) (log : list event) :
  deepfool model x0 eta max_iter = (Ok (r_sum, iters, label), log) ->
  length r_sum = length x0 /\ map shape r_sum = map shape x0.
Proof.
  intros H. unfold deepfool, deepfool_fuel in H.
  apply bind_Ok_inv in H. destruct H as (f_x0 & ? & ? & _ & H & _).
  apply bind_Ok_inv in H. destruct H as (label_x0 & ? & ? & _ & H & _).
  apply bind_Ok_inv in H. destruct H as (st & ? & ? & _ & H & _).
  apply bind_Ok_inv in H. destruct H as (s & ? & ? & Hsum & H & _).
  apply ret_Ok_inv in H. destruct H as [H _]. inversion H; subst.
  apply lift_Ok_inv in Hsum. destruct Hsum as [Hsum _].
  apply sum_history_shapes in Hsum. split; [| exact Hsum].
  rewrite <- (length_map shape r_sum), Hsum. apply length_map.
Qed.

Lemma deepfool_perturbation_shape_witness :
  exists r_sum iters label log,
    deepfool model_near9 x_two_steps 0%float 3 = (Ok (r_sum, iters, label), log) /\
    length r_sum = length x_two_steps /\ map shape r_sum = map shape x_two_steps.
Proof.
  do 4 eexists. split; [vm_compute; reflexivity |].
  eapply (deepfool_perturbation_shape model_near9 x_two_steps 0%float 3).
  vm_compute. reflexivity.
Defined.

(** ** Where the main loop stops *)

Section Loop_exit.
Context {NumT : Scalar}.
Variable model : Model NumT.
Variable x0 : list (ndarray NumT).
Variable eta : num.
Variable max_iter : Z.

(** A main loop that returns has run its body [k] times; before each of
    them the label was the top label and the count was below [max_iter];
    after the last the loop test fails. *)
Lemma main_loop_trace (fuel label_x0 : nat) (st st' : loop_state) (l : list event) :
  main_loop model x0 eta max_iter fuel label_x0 st = (Ok st', l) ->
  exists k,
    iterations model x0 eta k label_x0 st = (Ok st', l) /\
    loop_i st' = (loop_i st + Z.of_nat k)%Z /\
    length (r st') = length (r st) + k /\
    (label_xi st' =? label_x0) && (loop_i st' <? max_iter)%Z = false /\
    forall j st_j l_j,
      j < k -> iterations model x0 eta j label_x0 st = (Ok st_j, l_j) ->
      label_xi st_j = label_x0 /\ (loop_i st_j < max_iter)%Z.
Proof.
  revert st l. induction fuel as [| fuel IH]; intros st l; simpl;
    destruct ((label_xi st =? label_x0) && (loop_i st <? max_iter)%Z) eqn:Hc.
  - discriminate.
  - intros H. exists 0. split; [exact H |].
    apply ret_Ok_inv in H. destruct H as [<- _].
    split; [lia |]. split; [lia |]. split; [exact Hc |]. intros; lia.
  - intros H. apply bind_Ok_inv in H. destruct H as (st1 & l1 & l2 & H1 & H2 & ->).
    destruct (IH _ _ H2) as (k & Hits & Hl & Hr & Hexit & Hpre).
    pose proof H1 as Hinv. apply iteration_Ok_inv in Hinv.
    destruct Hinv as (? & ? & ? & ? & ? & ? & _ & _ & _ & _ & _ & Hr1 & Hi & _).
    exists (S k). split; [| split; [| split; [| split]]].
    + simpl. rewrite (bind_Ok _ _ _ _ H1), Hits. reflexivity.
    + lia.
    + rewrite Hr, Hr1, length_app. simpl. lia.
    + exact Hexit.
    + intros j st_j l_j Hj Hj'. destruct j as [| j].
      * simpl in Hj'. apply ret_Ok_inv in Hj'. destruct Hj' as [<- _].
        apply andb_prop in Hc. destruct Hc as [Hc1 Hc2].
        apply Nat.eqb_eq in Hc1. apply Z.ltb_lt in Hc2. now split.
      * simpl in Hj'. rewrite (bind_Ok _ _ _ _ H1) in Hj'.
        destruct (iterations model x0 eta j label_x0 st1) as [o lj'] eqn:Ej.
        simpl in Hj'. inversion Hj'; subst.
        apply (Hpre j st_j lj'); [lia | exact Ej].
  - intros H. exists 0. split; [exact H |].
    apply ret_Ok_inv in H. destruct H as [<- _].
    split; [lia |]. split; [lia |]. split; [exact Hc |]. intros; lia.
Qed.

(** What [deepfool] has done when it returns. *)
Lemma deepfool_Ok_inv (r_sum : list (ndarray NumT)) (iters : Z) (label : nat)
  (log : list event) :
  deepfool model x0 eta max_iter = (Ok (r_sum, iters, label), log) ->
  exists label_x0 st l,
    argmax (forward model x0) = Ok label_x0 /\
    main_loop model x0 eta max_iter (Z.to_nat max_iter) label_x0
      (initial_state x0 label_x0) = (Ok st, l) /\
    sum_history x0 (r st) = Ok r_sum /\
    iters = loop_i st /\ label = label_xi st /\ log = Predict :: l.
Proof.
  intros H. unfold deepfool, deepfool_fuel, predict in H.
  apply bind_Ok_inv in H. destruct H as (f_x0 & lp & ? & Hp & H & ->).
  apply bind_Ok_inv in Hp. destruct Hp as (? & ? & ? & Ht & Hp & ->).
  apply ret_Ok_inv in Hp. destruct Hp as [<- ->]. inversion Ht; subst.
  apply bind_Ok_inv in H. destruct H as (label_x0 & ? & ? & Hl & H & ->).
  apply lift_Ok_inv in Hl. destruct Hl as [Hl ->].
  apply bind_Ok_inv in H. destruct H as (st & l & ? & Hloop & H & ->).
  apply bind_Ok_inv in H. destruct H as (s & ? & ? & Hsum & H & ->).
  apply lift_Ok_inv in Hsum. destruct Hsum as [Hsum ->].
  apply ret_Ok_inv in H. destruct H as [H ->]. inversion H; subst.
  exists label_x0, st, l. repeat split; auto.
  simpl. now rewrite !app_nil_r.
Qed.

End Loop_exit.

(** X2.  When [deepfool] returns, it has stopped at the first flip of the
    label or at the budget: after every earlier iteration the label was
    still the initial one, and a returned label equal to the initial one
    means that the count is [max_iter] (0 when [max_iter] is negative). *)
Theorem deepfool_stops_at_first_flip {NumT : Scalar} (model : Model NumT)
  (x0 : list (ndarray NumT)) (eta : num) (max_iter : Z)
  (r_sum : list (ndarray NumT)) (iters : Z) (label : nat) (log : list event) :
  deepfool model x0 eta max_iter = (Ok (r_sum, iters, label), log) ->
  exists label_x0,
    argmax (forward model x0) = Ok label_x0 /\
    (label = label_x0 -> iters = Z.max 0 max_iter) /\
    (label <> label_x0 -> (1 <= iters <= max_iter)%Z) /\
    forall j st_j l_j,
      (Z.of_nat j < iters)%Z ->
      iterations model x0 eta j label_x0 (initial_state x0 label_x0) = (Ok st_j, l_j) ->
      label_xi st_j = label_x0.
Proof.
  intros H. apply deepfool_Ok_inv in H.
  destruct H as (label_x0 & st & l & Hl & Hloop & _ & -> & -> & _).
  exists label_x0. split; [exact Hl |].
  pose proof (proj2 (main_loop_fuel model x0 eta max_iter (Z.to_nat max_iter)
                       label_x0 (initial_state x0 label_x0) ltac:(simpl; lia))
                _ _ Hloop) as Hb.
  destruct (main_loop_trace _ _ _ _ _ _ _ _ _ Hloop) as (k & Hits & Hi & _ & Hexit & Hpre).
  simpl in Hb, Hi. split; [| split].
  - intros E. rewrite E, Nat.eqb_refl in Hexit. simpl in Hexit.
    apply Z.ltb_ge in Hexit. lia.
  - intros E. destruct k as [| k].
    + simpl in Hits. apply ret_Ok_inv in Hits. destruct Hits as [<- _].
      simpl in E. contradiction.
    + destruct (Hpre 0 (initial_state x0 label_x0) []) as [_ Hlt];
        [lia | reflexivity |].
      simpl in Hlt. lia.
  - intros j st_j l_j Hj Hj'. apply (Hpre j st_j l_j); [lia | exact Hj'].
Qed.

Lemma deepfool_stops_at_first_flip_witness :
  exists r_sum iters label log,
    deepfool model_near9 x_two_steps 1%float 20 = (Ok (r_sum, iters, label), log) /\
    exists label_x0,
      argmax (forward model_near9 x_two_steps) = Ok label_x0 /\
      (label = label_x0 -> iters = Z.max 0 20) /\
      (label <> label_x0 -> (1 <= iters <= 20)%Z) /\
      forall j st_j l_j,
        (Z.of_nat j < iters)%Z ->
        iterations model_near9 x_two_steps 1%float j label_x0
          (initial_state x_two_steps label_x0) = (Ok st_j, l_j) ->
        label_xi st_j = label_x0.
Proof.
  do 4 eexists. split; [vm_compute; reflexivity |].
  eapply (deepfool_stops_at_first_flip model_near9 x_two_steps 1%float 20).
  vm_compute. reflexivity.
Defined.

(** ** The calls to the model *)

Section Call_log.
Context {NumT : Scalar}.
Variable model : Model NumT.
Variable x0 : list (ndarray NumT).
Variable eta : num.

Lemma iteration_log (label_x0 : nat) (st st' : loop_state) (l : list event) :
  iteration model x0 eta label_x0 st = (Ok st', l) -> l = iteration_calls label_x0.
Proof.
  intros Hi. apply iteration_Ok_inv in Hi.
  destruct Hi as (grad & f_xi & win & l1 & l2 & xi_new & Hg & Hs & _ & _ & _ & _ & _ & ->).
  pose proof (get_gradient_log model (xi st) label_x0) as Hgl.
  rewrite Hg in Hgl. simpl in Hgl. subst l1.
  destruct (scan_log model (xi st) grad label_x0 class_range
              (Build_scan_state (zeros_like x0) nzero Inf)) as [_ Hsl].
  rewrite Hs in Hsl. simpl in Hsl. unfold iteration_calls, other_classes.
  rewrite Hsl; [reflexivity |]. exists win. reflexivity.
Qed.

Lemma iterations_log (n label_x0 : nat) (st st' : loop_state) (l : list event) :
  iterations model x0 eta n label_x0 st = (Ok st', l) ->
  l = concat (repeat (iteration_calls label_x0) n).
Proof.
  revert st l. induction n as [| n IH]; intros st l H; simpl in *.
  - apply ret_Ok_inv in H. now destruct H.
  - apply bind_Ok_inv in H. destruct H as (st1 & l1 & l2 & H1 & H2 & ->).
    apply iteration_log in H1. apply IH in H2. now subst.
Qed.

End Call_log.

Lemma other_classes_10_length (label_x0 : nat) :
  length (other_classes 10 label_x0) = if label_x0 <? 10 then 9 else 10.
Proof.
  do 10 (destruct label_x0 as [| label_x0]; [reflexivity |]). reflexivity.
Qed.

Lemma count_concat_repeat {A : Type} (p : A -> bool) (l : list A) (n : nat) :
  length (filter p (concat (repeat l n))) = n * length (filter p l).
Proof.
  induction n as [| n IH]; simpl; [reflexivity |].
  now rewrite filter_app, length_app, IH.
Qed.

Lemma iteration_calls_gradients (label_x0 : nat) :
  length (filter is_gradient (iteration_calls label_x0))
  = if label_x0 <? 10 then 10 else 11.
Proof.
  unfold iteration_calls. simpl. rewrite filter_app, length_app. simpl.
  assert (H : forall ks, filter is_gradient (map Gradient ks) = map Gradient ks).
  { induction ks as [| k ks IH]; simpl; [| rewrite IH]; reflexivity. }
  rewrite H, length_map, other_classes_10_length.
  destruct (label_x0 <? 10); reflexivity.
Qed.

Lemma iteration_calls_predicts (label_x0 : nat) :
  length (filter is_predict (iteration_calls label_x0)) = 1.
Proof.
  unfold iteration_calls. simpl. rewrite filter_app, length_app. simpl.
  assert (H : forall ks, filter is_predict (map Gradient ks) = []).
  { induction ks as [| k ks IH]; simpl; auto. }
  now rewrite H.
Qed.

(** X3.  A call of [deepfool] that returns after [iters] iterations has
    called the model in this order: [predict] once, then in each iteration
    [get_gradient] for the top label, [get_gradient] for each class of
    [range(10)] other than the top label, and [predict].  That is
    [iters + 1] calls of [predict] and [10 * iters] calls of [get_gradient]
    (11 per iteration when the top label is not among the ten classes). *)
Theorem deepfool_calls {NumT : Scalar} (model : Model NumT)
  (x0 : list (ndarray NumT)) (eta : num) (max_iter : Z)
  (r_sum : list (ndarray NumT)) (iters : Z) (label : nat) (log : list event) :
  deepfool model x0 eta max_iter = (Ok (r_sum, iters, label), log) ->
  exists label_x0,
    argmax (forward model x0) = Ok label_x0 /\
    log = Predict :: concat (repeat (iteration_calls label_x0) (Z.to_nat iters)) /\
    length (filter is_predict log) = S (Z.to_nat iters) /\
    length (filter is_gradient log)
    = Z.to_nat iters * (if label_x0 <? 10 then 10 else 11).
Proof.
  intros H. apply deepfool_Ok_inv in H.
  destruct H as (label_x0 & st & l & Hl & Hloop & _ & -> & -> & ->).
  exists label_x0. split; [exact Hl |].
  destruct (main_loop_trace _ _ _ _ _ _ _ _ _ Hloop) as (k & Hits & Hi & _).
  simpl in Hi. rewrite Hi, Nat2Z.id.
  apply iterations_log in Hits. subst l.
  split; [reflexivity |]. split.
  - simpl. now rewrite count_concat_repeat, iteration_calls_predicts, Nat.mul_1_r.
  - simpl. now rewrite count_concat_repeat, iteration_calls_gradients.
Qed.

Lemma deepfool_calls_witness :
  exists r_sum iters label log,
    deepfool model_near9 x_two_steps 0%float 3 = (Ok (r_sum, iters, label), log) /\
    exists label_x0,
      argmax (forward model_near9 x_two_steps) = Ok label_x0 /\
      log = Predict :: concat (repeat (iteration_calls label_x0) (Z.to_nat iters)) /\
      length (filter is_predict log) = S (Z.to_nat iters) /\
      length (filter is_gradient log)
      = Z.to_nat iters * (if label_x0 <? 10 then 10 else 11).
Proof.
  do 4 eexists. split; [vm_compute; reflexivity |].
  eapply (deepfool_calls model_near9 x_two_steps 0%float 3).
  vm_compute. reflexivity.
Defined.

(** ** [get_gradient] and the classes of the model *)

Section Gradient_outcomes.
Context {NumT : Scalar}.
Variable model : Model NumT.

Lemma get_gradient_outcome (x : list (ndarray NumT)) (k : nat) :
  get_gradient model x k
  = (if homogeneous x
     then match nth_error (forward model x) k with
          | Some _ => Ok (gradient model x k, forward model x)
          | None => Raise InvalidArgumentError
          end
     else Raise ValueError,
     [Gradient k]).
Proof.
  unfold get_gradient, np_array, tensor_get.
  destruct (homogeneous x); simpl; [| reflexivity].
  destruct (nth_error (forward model x) k); reflexivity.
Qed.

Lemma bind_Raise {A B : Type} (m : M A) (f : A -> M B) (e : exn) (l : list event) :
  m = (Raise e, l) -> bind m f = (Raise e, l).
Proof. now intros ->. Qed.

Lemma scan_class_missing (x grad : list (ndarray NumT)) (label_x0 : nat)
  (st : scan_state) (k : nat) :
  k <> label_x0 -> homogeneous x = true -> length (forward model x) <= k ->
  scan_class model x label_x0 grad st k = (Raise InvalidArgumentError, [Gradient k]).
Proof.
  intros Hk Hh Hlen. unfold scan_class. apply Nat.eqb_neq in Hk. rewrite Hk.
  apply bind_Raise. rewrite get_gradient_outcome, Hh.
  apply nth_error_None in Hlen. now rewrite Hlen.
Qed.

End Gradient_outcomes.

Section Few_classes.
Context {NumT : Scalar}.
Variable model : Model NumT.
Variable x0 : list (ndarray NumT).
Variable eta : num.
Variable n_classes : nat.
Variable label_x0 : nat.

Hypothesis classes_lt_10 : n_classes < 10.
Hypothesis forward_length : forall x, length (forward model x) = n_classes.
Hypothesis gradient_shape : forall x k, map shape (gradient model x k) = map shape x.
Hypothesis x0_homogeneous : homogeneous x0 = true.
Hypothesis label_lt : label_x0 < n_classes.

Lemma class_range_split :
  class_range = seq 0 n_classes ++ n_classes :: seq (S n_classes) (9 - n_classes).
Proof.
  unfold class_range. replace 10 with (n_classes + S (9 - n_classes)) by lia.
  rewrite seq_app. reflexivity.
Qed.

(** With fewer than ten classes the scan returns for the classes of the
    model and raises at the next one. *)
Lemma scan_few_classes (x : list (ndarray NumT)) :
  map shape x = map shape x0 ->
  scan model x label_x0 (gradient model x label_x0) class_range (scan_init x0)
  = (Raise InvalidArgumentError,
     map Gradient (other_classes n_classes label_x0) ++ [Gradient n_classes]).
Proof.
  intros Hx. rewrite class_range_split, scan_app.
  assert (Hg : map shape (gradient model x label_x0) = map shape x0)
    by (now rewrite gradient_shape).
  assert (Hks : Forall (fun k => k < n_classes) (seq 0 n_classes)).
  { apply Forall_forall. intros k Hk. apply in_seq in Hk. lia. }
  destruct (scan_Ok model x0 n_classes label_x0 forward_length gradient_shape
              x0_homogeneous label_lt x (gradient model x label_x0) (seq 0 n_classes)
              (scan_init x0) Hx Hg (zeros_like_shape x0) Hks) as (st1 & l1 & H1 & _).
  destruct (scan_log model x (gradient model x label_x0) label_x0 (seq 0 n_classes)
              (scan_init x0)) as [_ Hlog].
  rewrite H1 in Hlog. simpl in Hlog.
  rewrite (bind_Ok _ _ _ _ H1). cbn [scan].
  rewrite (bind_Raise _ _ InvalidArgumentError [Gradient n_classes]).
  - simpl. rewrite Hlog; [reflexivity |]. exists st1. reflexivity.
  - apply scan_class_missing; [lia | | rewrite forward_length; lia].
    now rewrite (homogeneous_shapes x x0).
Qed.

Lemma iteration_few_classes (st : loop_state) :
  map shape (xi st) = map shape x0 ->
  iteration model x0 eta label_x0 st
  = (Raise InvalidArgumentError,
     Gradient label_x0 :: map Gradient (other_classes n_classes label_x0)
     ++ [Gradient n_classes]).
Proof.
  intros Hx. unfold iteration.
  rewrite (bind_Ok _ _ _ _ (get_gradient_Ok model x0 n_classes forward_length
                              x0_homogeneous (xi st) label_x0 Hx label_lt)).
  cbv beta iota.
  rewrite (bind_Raise _ _ InvalidArgumentError
             (map Gradient (other_classes n_classes label_x0) ++ [Gradient n_classes])).
  - reflexivity.
  - apply (scan_few_classes (xi st) Hx).
Qed.

End Few_classes.

(** X5.  [deepfool] needs a model with at least ten classes.  Take a model
    of fewer classes (a fixed number, gradients in the shape of the input),
    an input whose fields have one shape, [max_iter >= 1], and an [argsort]
    that returns every index once.  With one to nine classes [deepfool]
    raises TensorFlow's [InvalidArgumentError] in its first iteration, at
    the first class of [range(10)] that the model does not have, after the
    calls for the classes it has.  With no class at all the first label
    raises [IndexError]. *)
Theorem deepfool_needs_ten_classes {NumT : Scalar} (model : Model NumT)
  (x0 : list (ndarray NumT)) (eta : num) (max_iter : Z) (n_classes : nat) :
  n_classes < 10 ->
  (forall x, length (forward model x) = n_classes) ->
  (forall x k, map shape (gradient model x k) = map shape x) ->
  homogeneous x0 = true ->
  (1 <= max_iter)%Z ->
  argsort_permutes (forward model x0) ->
  (n_classes = 0 -> deepfool model x0 eta max_iter = (Raise IndexError, [Predict])) /\
  (1 <= n_classes ->
   exists label_x0,
     argmax (forward model x0) = Ok label_x0 /\ label_x0 < n_classes /\
     deepfool model x0 eta max_iter
     = (Raise InvalidArgumentError,
        Predict :: Gradient label_x0
        :: map Gradient (other_classes n_classes label_x0) ++ [Gradient n_classes])).
Proof.
  intros Hn Hlen Hgrad Hhom Hmax Hperm. split.
  - intros H0. pose proof (Hlen x0) as Hl0. rewrite H0 in Hl0.
    pose proof (argsort_length _ Hperm) as Hs. rewrite Hl0 in Hs.
    unfold deepfool, deepfool_fuel, predict, argmax, bind, tell, ret, lift.
    cbv beta iota. revert Hs. generalize (argsort (forward model x0)).
    intros [| j p] Hs; [reflexivity | discriminate].
  - intros H1.
    assert (Hne : forward model x0 <> []).
    { intros E. pose proof (Hlen x0) as Hl0. rewrite E in Hl0. simpl in Hl0. lia. }
    destruct (argmax_Ok _ Hperm Hne) as (label_x0 & Hl & Hlt).
    rewrite Hlen in Hlt. exists label_x0. split; [exact Hl |]. split; [exact Hlt |].
    rewrite (deepfool_unfold _ _ _ _ _ Hl).
    destruct (Z.to_nat max_iter) as [| fuel] eqn:Hfuel; [lia |].
    assert (Hc : (0 <? max_iter)%Z = true) by (apply Z.ltb_lt; lia).
    cbn [main_loop initial_state label_xi loop_i]. rewrite Nat.eqb_refl, Hc.
    cbn [andb].
    rewrite (bind_Raise (bind (iteration model x0 eta label_x0 _) _) _
               InvalidArgumentError
               (Gradient label_x0 :: map Gradient (other_classes n_classes label_x0)
                ++ [Gradient n_classes])).
    + reflexivity.
    + apply bind_Raise.
      apply (iteration_few_classes model x0 eta n_classes label_x0 Hn Hlen Hgrad
               Hhom Hlt). reflexivity.
Qed.

Lemma deepfool_needs_ten_classes_witness :
  (3 = 0 -> deepfool model_3 x_two_steps 0%float 1 = (Raise IndexError, [Predict])) /\
  (1 <= 3 ->
   exists label_x0,
     argmax (forward model_3 x_two_steps) = Ok label_x0 /\ label_x0 < 3 /\
     deepfool model_3 x_two_steps 0%float 1
     = (Raise InvalidArgumentError,
        Predict :: Gradient label_x0
        :: map Gradient (other_classes 3 label_x0) ++ [Gradient 3])).
Proof.
  apply (deepfool_needs_ten_classes model_3 x_two_steps 0%float 1 3).
  - lia.
  - intros x. reflexivity.
  - intros x k. apply unflatten_shape.
  - reflexivity.
  - lia.
  - apply F64_argsort_permutes.
Defined.

(** ** More on saving and loading *)

(** X6.  [save_pkl(data, path)] touches no other file: whether it succeeds or
    fails, every other path holds what it held, and [load_pkl] on it gives
    what it gave before. *)
Theorem save_leaves_other_files (obj : Type) (dump : obj -> list Byte.byte * bool)
  (loads : list Byte.byte -> option obj)
  (data : obj) (path p : String.string) (fs : filesystem) :
  p <> path ->
  content (fst (save_pkl obj dump data path fs)) p = content fs p /\
  load_pkl obj loads p (fst (save_pkl obj dump data path fs)) = load_pkl obj loads p fs.
Proof.
  intros Hp. apply String.eqb_neq in Hp.
  assert (H : content (fst (save_pkl obj dump data path fs)) p = content fs p).
  { unfold save_pkl. destruct (writable fs path); [| reflexivity].
    destruct (dump data) as [bytes returned]. simpl. now rewrite Hp. }
  split; [exact H |]. unfold load_pkl. now rewrite H.
Qed.

Lemma save_leaves_other_files_witness :
  let fs := fst (save_pkl _ dump_bools [true] fold1_path empty_disk) in
  fold1_path <> features_path /\
  content (fst (save_pkl _ dump_bools [false] features_path fs)) fold1_path
  = content fs fold1_path /\
  load_pkl _ loads_bools fold1_path (fst (save_pkl _ dump_bools [false] features_path fs))
  = load_pkl _ loads_bools fold1_path fs.
Proof.
  assert (H : fold1_path <> features_path) by (vm_compute; discriminate).
  split; [exact H |].
  exact (save_leaves_other_files (list bool) dump_bools loads_bools [false]
           features_path fold1_path _ H).
Defined.

(** X7.  [save_pkl] never raises, and prints its notice exactly when
    [open] or [pickle.dump] failed.  When [open] failed the files are as they
    were.  Once the file is open, what it held before is lost, also when
    [pickle.dump] fails: the file holds what was written, and what
    [load_pkl] then returns does not depend on the earlier content. *)
Theorem save_failure_modes (obj : Type) (dump : obj -> list Byte.byte * bool)
  (loads : list Byte.byte -> option obj)
  (data : obj) (path : String.string) (fs : filesystem) :
  (snd (save_pkl obj dump data path fs) = []
   \/ snd (save_pkl obj dump data path fs) = [save_failure])
  /\ (snd (save_pkl obj dump data path fs) = []
      <-> writable fs path = true /\ snd (dump data) = true)
  /\ (writable fs path = false -> fst (save_pkl obj dump data path fs) = fs)
  /\ (writable fs path = true ->
      content (fst (save_pkl obj dump data path fs)) path = Some (fst (dump data))
      /\ forall fs0, writable fs0 path = true ->
           load_pkl obj loads path (fst (save_pkl obj dump data path fs0))
           = load_pkl obj loads path (fst (save_pkl obj dump data path fs))).
Proof.
  assert (Hopen : forall fs1, writable fs1 path = true ->
            save_pkl obj dump data path fs1
            = (write fs1 path (fst (dump data)),
               if snd (dump data) then [] else [save_failure])).
  { intros fs1 H1. unfold save_pkl. rewrite H1. now destruct (dump data). }
  destruct (writable fs path) eqn:Hw.
  - rewrite (Hopen fs Hw). simpl.
    split; [destruct (snd (dump data)); auto |].
    split; [destruct (snd (dump data)); split; try discriminate; auto;
            intros [_ H]; discriminate |].
    split; [discriminate |]. intros _.
    split; [unfold write; simpl; now rewrite String.eqb_refl |].
    intros fs0 Hw0. rewrite (Hopen fs0 Hw0). unfold load_pkl, write. simpl.
    now rewrite String.eqb_refl.
  - unfold save_pkl. rewrite Hw. simpl.
    split; [auto |].
    split; [split; [discriminate | intros [H _]; discriminate] |].
    split; [reflexivity | discriminate].
Qed.

(** ** More on [example_robustness], over the reals *)

Section Robustness_facts.
Local Open Scope R_scope.
Implicit Types (x r : list (ndarray Real)) (d : list R).

Lemma np_sum_sq_eq_0 d : @np_sum Real (map (@sq Real) d) = 0 -> Forall (eq 0) d.
Proof.
  induction d as [| y d IH]; [constructor |].
  cbn [map]. rewrite np_sum_cons. intros H.
  pose proof (np_sum_sq_nonneg d) as Hd.
  assert (Hy : 0 <= @sq Real y) by (unfold sq; simpl; nra).
  assert (Hy0 : @sq Real y = 0) by lra.
  constructor; [| apply IH; lra].
  unfold sq in Hy0. simpl in Hy0. nra.
Qed.

Lemma all_zero_flat r : @all_zero Real r <-> Forall (eq 0) (concat (map data r)).
Proof.
  unfold all_zero. induction r as [| a r IH]; simpl.
  - split; constructor.
  - rewrite Forall_app. split.
    + intros H. inversion H; subst. split; [assumption | now apply IH].
    + intros [Ha Hr]. constructor; [assumption | now apply IH].
Qed.

Lemma joint_norm_eq_0 r : @joint_norm Real r = 0 <-> @all_zero Real r.
Proof.
  rewrite all_zero_flat. unfold joint_norm. split.
  - intros H. apply np_sum_sq_eq_0.
    apply sqrt_eq_0; [apply np_sum_sq_nonneg | exact H].
  - intros H. rewrite (np_sum_sq_zero _ H). apply sqrt_0.
Qed.

Lemma joint_norm_nonneg r : 0 <= @joint_norm Real r.
Proof. unfold joint_norm. simpl. apply sqrt_pos. Qed.

Lemma np_sum_sq_scale (c : @num Real) (d : list (@num Real)) :
  np_sum (map sq (map (nmul c) d)) = Rsqr c * np_sum (map sq d).
Proof.
  induction d as [| y d IH].
  - unfold np_sum. simpl. lra.
  - cbn [map]. rewrite !np_sum_cons, IH. unfold sq, Rsqr. simpl. lra.
Qed.

Lemma flat_scale (c : @num Real) (r : list (ndarray Real)) :
  concat (map data (map (arr_scale c) r)) = map (nmul c) (concat (map data r)).
Proof.
  induction r as [| a r IH]; [reflexivity |].
  cbn [map concat]. rewrite IH, map_app. reflexivity.
Qed.

Lemma joint_norm_scale (c : @num Real) (r : list (ndarray Real)) :
  joint_norm (map (arr_scale c) r) = Rabs c * joint_norm r.
Proof.
  unfold joint_norm. rewrite flat_scale, np_sum_sq_scale.
  change (@nsqrt Real) with sqrt.
  rewrite sqrt_mult; [| apply Rle_0_sqr | apply np_sum_sq_nonneg].
  now rewrite sqrt_Rsqr_abs.
Qed.

End Robustness_facts.

(** X8.  Over the reals, for an input whose norm is not zero, the robustness
    ratio is not negative, and it is zero exactly when every element of the
    perturbation is zero. *)
Theorem example_robustness_zero (x r : list (ndarray Real)) :
  @joint_norm Real x <> 0%R ->
  (0 <= example_robustness x r)%R /\
  (example_robustness x r = 0%R <-> all_zero r).
Proof.
  intros Hx. unfold example_robustness. rewrite !fields_norm_joint.
  change (@ndiv Real) with Rdiv.
  pose proof (joint_norm_nonneg x) as Hx0. pose proof (joint_norm_nonneg r) as Hr0.
  assert (Hpos : (0 < / @joint_norm Real x)%R).
  { apply Rinv_0_lt_compat. destruct Hx0 as [H | H]; [exact H |].
    now contradiction Hx. }
  split.
  - apply Rmult_le_pos; [exact Hr0 | now left].
  - rewrite <- joint_norm_eq_0. split.
    + intros H. apply Rmult_integral in H.
      destruct H as [H | H]; [exact H |].
      rewrite H in Hpos. now apply Rlt_irrefl in Hpos.
    + intros H. unfold Rdiv. rewrite H. apply Rmult_0_l.
Qed.

Lemma example_robustness_zero_witness :
  @joint_norm Real [scalarR 3; scalarR 4] <> 0%R /\
  (0 <= example_robustness [scalarR 3; scalarR 4] [scalarR 0; scalarR 0])%R /\
  (example_robustness [scalarR 3; scalarR 4] [scalarR 0; scalarR 0] = 0%R
   <-> all_zero [scalarR 0; scalarR 0]).
Proof.
  assert (H : @joint_norm Real [scalarR 3; scalarR 4] <> 0%R).
  { rewrite joint_norm_eq_0. intros Hz. inversion Hz as [| ? ? Ha _]; subst.
    inversion Ha as [| ? ? H3 _]; subst. simpl in H3. lra. }
  split; [exact H |].
  exact (example_robustness_zero [scalarR 3; scalarR 4] [scalarR 0; scalarR 0] H).
Defined.

(** X9.  Over the reals the robustness ratio scales with the perturbation:
    a perturbation multiplied by [c] has [|c|] times the ratio.  Multiplying
    the input and the perturbation by the same [c <> 0] leaves the ratio as
    it is. *)
Theorem example_robustness_scaling (x r : list (ndarray Real)) (c : @num Real) :
  example_robustness x (map (arr_scale c) r)
  = (Rabs c * example_robustness x r)%R
  /\ (c <> 0%R -> @joint_norm Real x <> 0%R ->
      example_robustness (map (arr_scale c) x) (map (arr_scale c) r)
      = example_robustness x r).
Proof.
  unfold example_robustness. rewrite !fields_norm_joint, !joint_norm_scale.
  change (@ndiv Real) with Rdiv. change (@nmul Real) with Rmult.
  generalize (@joint_norm Real x) (@joint_norm Real r). revert c.
  change (forall c nx nr : R,
    (Rabs c * nr / nx = Rabs c * (nr / nx)
     /\ (c <> 0 -> nx <> 0 -> Rabs c * nr / (Rabs c * nx) = nr / nx))%R).
  intros c nx nr. split.
  - unfold Rdiv. ring.
  - intros Hc Hx. apply Rabs_no_R0 in Hc. field. split; assumption.
Qed.

(** ** The run over the folds *)

Lemma to_uint_nonnil (n : nat) : Nat.to_uint n <> Decimal.Nil.
Proof.
  intros H. pose proof (DecimalNat.Unsigned.of_to n) as Hn.
  rewrite H in Hn. simpl in Hn. subst n. discriminate H.
Qed.

Lemma str_inj (n m : nat) : str n = str m -> n = m.
Proof.
  unfold str. intros H. apply DecimalNat.Unsigned.to_uint_inj.
  assert (Hs : Some (Nat.to_uint n) = Some (Nat.to_uint m)).
  { rewrite <- (DecimalString.NilZero.usu _ (to_uint_nonnil n)),
            <- (DecimalString.NilZero.usu _ (to_uint_nonnil m)).
    now rewrite H. }
  now injection Hs.
Qed.

Lemma append_length (s t : String.string) :
  String.length (String.append s t) = String.length s + String.length t.
Proof. induction s as [| c s IH]; simpl; [reflexivity | now rewrite IH]. Qed.

Lemma append_inv_head (p s t : String.string) :
  String.append p s = String.append p t -> s = t.
Proof.
  induction p as [| c p IH]; simpl; [auto |].
  intros H. injection H as H. auto.
Qed.

Lemma append_inv_tail (s t u : String.string) :
  String.append s u = String.append t u -> s = t.
Proof.
  revert t. induction s as [| c s IH]; intros [| c' t] H; simpl in H.
  - reflexivity.
  - apply (f_equal String.length) in H. simpl in H.
    rewrite append_length in H. lia.
  - apply (f_equal String.length) in H. simpl in H.
    rewrite append_length in H. lia.
  - injection H as Hc H. subst c'. f_equal. now apply IH.
Qed.

Lemma fold_path_inj (f f' : nat) : fold_path f = fold_path f' -> f = f'.
Proof.
  unfold fold_path. intros H.
  apply append_inv_head, append_inv_tail in H. now apply str_inj.
Qed.

Lemma fold_path_not_model (f f' : nat) : fold_path f <> model_path f'.
Proof. unfold fold_path, model_path. simpl. discriminate. Qed.

Lemma fold_path_not_features (f : nat) : fold_path f <> features_path.
Proof. unfold fold_path, features_path. simpl. discriminate. Qed.

Lemma fold_paths_NoDup (folds : list nat) : NoDup folds -> NoDup (map fold_path folds).
Proof.
  induction 1 as [| f folds Hf _ IH]; simpl; constructor; [| exact IH].
  rewrite in_map_iff. intros [f' [H Hin]].
  apply fold_path_inj in H. now subst f'.
Qed.

Section Driver_facts.
Context {NumT : Scalar}.
Variable load_model : list Byte.byte -> option (Model NumT).
Variable dump : list num -> list Byte.byte * bool.
Variable eta : num.

(** [deepfool] with its own fuel always ends. *)
Lemma deepfool_terminates (model : Model NumT) (x0 : list (ndarray NumT)) (max_iter : Z) :
  (0 <= max_iter)%Z -> terminates (deepfool model x0 eta max_iter).
Proof.
  intros Hmax. unfold deepfool, deepfool_fuel.
  apply terminates_bind; [apply terminates_predict |]. intros f_x0 _ _.
  apply terminates_bind; [apply terminates_lift, oterminates_argmax |].
  intros label_x0 _ _.
  apply terminates_bind.
  - apply main_loop_fuel. simpl. lia.
  - intros st _ _. apply terminates_bind; [| intros; apply terminates_ret].
    apply terminates_lift, oterminates_sum_history.
Qed.

Lemma fold_examples_terminates (model : Model NumT) X_fold acc :
  terminates (fold_examples eta model X_fold acc).
Proof.
  revert acc. induction X_fold as [| X_i rest IH]; intros acc; simpl.
  - apply terminates_ret.
  - apply terminates_bind; [apply deepfool_terminates; lia |].
    intros [[perturbation iters] label] _ _. apply IH.
Qed.

(** The loop appends one ratio for each example, in the order of the
    examples. *)
Lemma fold_examples_values (model : Model NumT) X_fold acc values l :
  fold_examples eta model X_fold acc = (Ok values, l) ->
  exists vs, values = acc ++ vs /\ Forall2 (ratio_of eta model) X_fold vs.
Proof.
  revert acc l. induction X_fold as [| X_i rest IH]; intros acc l H; simpl in H.
  - apply ret_Ok_inv in H. destruct H as [<- _].
    exists []. split; [now rewrite app_nil_r | constructor].
  - apply bind_Ok_inv in H.
    destruct H as ([[perturbation iters] label] & l1 & l2 & Hd & H & _).
    apply IH in H. destruct H as (vs & -> & Hvs).
    exists (example_robustness [X_i] perturbation :: vs).
    split; [now rewrite <- app_assoc |].
    constructor; [| exact Hvs].
    exists perturbation, iters, label, l1. split; [exact Hd | reflexivity].
Qed.

Local Abbreviation run_fold := (run_fold load_model dump eta).
Local Abbreviation run_over := (run_over load_model dump eta).
Local Abbreviation run_folds := (run_folds load_model dump eta).
Local Abbreviation fold_values := (fold_values load_model eta).

Lemma run_fold_raised df st f : raised st <> None -> run_fold df st f = st.
Proof. unfold run_fold. destruct (raised st); [reflexivity | congruence]. Qed.

Lemma run_over_raised df folds st : raised st <> None -> run_over df folds st = st.
Proof.
  intros H. unfold run_over. induction folds as [| f folds IH]; simpl; [reflexivity |].
  now rewrite (run_fold_raised df st f H).
Qed.

Lemma run_over_cons df f folds st :
  run_over df (f :: folds) st = run_over df folds (run_fold df st f).
Proof. reflexivity. Qed.

(** One fold of the loop, by what [fold_values] says of it. *)
Lemma run_fold_values d st f fs :
  raised st = None ->
  content (disk st) (model_path f) = content fs (model_path f) ->
  match fold_values d fs f with
  | Some values =>
      raised (run_fold (Some d) st f) = None /\
      disk (run_fold (Some d) st f)
      = fst (save_pkl (list num) dump values (fold_path f) (disk st))
  | None =>
      raised (run_fold (Some d) st f) <> None /\
      disk (run_fold (Some d) st f) = disk st
  end.
Proof.
  intros Hr Hm. unfold run_fold, fold_values. rewrite Hr, Hm.
  destruct (d f) as [X_fold |]; [| split; [discriminate | reflexivity]].
  destruct (content fs (model_path f)) as [b |]; simpl;
    [| split; [discriminate | reflexivity]].
  destruct (load_model b) as [m |]; [| split; [discriminate | reflexivity]].
  destruct (fold_examples eta m X_fold []) as [[values | e |] l];
    try (split; [discriminate | reflexivity]).
  destruct (save_pkl (list num) dump values (fold_path f) (disk st)); simpl.
  split; reflexivity.
Qed.

(** A fold changes, at most, its own file. *)
Lemma run_fold_disk df st f :
  disk (run_fold df st f) = disk st \/
  exists b, disk (run_fold df st f) = write (disk st) (fold_path f) b.
Proof.
  unfold run_fold.
  destruct (raised st); [now left |].
  destruct df as [d |]; [| now left].
  destruct (d f) as [X_fold |]; [| now left].
  destruct (option_map load_model (content (disk st) (model_path f))) as [[m |] |];
    try now left.
  destruct (fold_examples eta m X_fold []) as [[values | e |] l]; try now left.
  unfold save_pkl. destruct (writable (disk st) (fold_path f)); [| now left].
  destruct (dump values) as [b returned]. right. now exists b.
Qed.

Lemma run_fold_content df st f p :
  p <> fold_path f -> content (disk (run_fold df st f)) p = content (disk st) p.
Proof.
  intros Hp. destruct (run_fold_disk df st f) as [-> | [b ->]]; [reflexivity |].
  unfold write. simpl. apply String.eqb_neq in Hp. now rewrite Hp.
Qed.

Lemma run_fold_writable df st f :
  writable (disk (run_fold df st f)) = writable (disk st).
Proof. destruct (run_fold_disk df st f) as [-> | [b ->]]; reflexivity. Qed.

Lemma run_over_content df folds st p :
  ~ In p (map fold_path folds) ->
  content (disk (run_over df folds st)) p = content (disk st) p.
Proof.
  revert st. induction folds as [| f folds IH]; intros st Hp; [reflexivity |].
  rewrite run_over_cons, IH by (intros H; apply Hp; now right).
  apply run_fold_content. intros ->. apply Hp. now left.
Qed.

Lemma run_over_writable df folds st :
  writable (disk (run_over df folds st)) = writable (disk st).
Proof.
  revert st. induction folds as [| f folds IH]; intros st; [reflexivity |].
  now rewrite run_over_cons, IH, run_fold_writable.
Qed.

Lemma run_over_models df folds st f :
  content (disk (run_over df folds st)) (model_path f) = content (disk st) (model_path f).
Proof.
  apply run_over_content. rewrite in_map_iff. intros [f' [H _]].
  now apply fold_path_not_model in H.
Qed.

(** The run ends without an exception exactly when every fold has its
    values. *)
Lemma run_over_raised_iff d fs folds st :
  raised st = None -> same_models (disk st) fs ->
  raised (run_over (Some d) folds st) = None
  <-> Forall (fun f => fold_values d fs f <> None) folds.
Proof.
  revert st. induction folds as [| f folds IH]; intros st Hr Hm.
  - split; [constructor | intros _; exact Hr].
  - rewrite run_over_cons.
    pose proof (run_fold_values d st f fs Hr (Hm f)) as Hf.
    destruct (fold_values d fs f) as [values |] eqn:Hv.
    + destruct Hf as [Hr' Hd]. rewrite IH.
      * split; [intros H; constructor; [rewrite Hv; discriminate | exact H] |].
        intros H. now inversion H.
      * exact Hr'.
      * intros f'. rewrite <- (Hm f').
        apply run_fold_content. apply not_eq_sym, fold_path_not_model.
    + destruct Hf as [Hr' _]. rewrite run_over_raised by exact Hr'.
      split; [intros H; contradiction |].
      intros H. inversion H; subst. congruence.
Qed.

(** The file of a fold that has its values, as have the folds before it. *)
Lemma run_over_saved d fs folds st pre f post values :
  raised st = None -> same_models (disk st) fs ->
  folds = pre ++ f :: post -> NoDup folds ->
  Forall (fun f' => fold_values d fs f' <> None) pre ->
  fold_values d fs f = Some values ->
  writable (disk st) (fold_path f) = true ->
  content (disk (run_over (Some d) folds st)) (fold_path f)
  = Some (fst (dump values)).
Proof.
  intros Hr Hm -> Hnd Hpre Hv Hw. revert st Hr Hm Hw Hnd.
  induction Hpre as [| f0 pre Hf0 _ IH]; intros st Hr Hm Hw Hnd.
  - simpl app. rewrite run_over_cons.
    rewrite run_over_content.
    + pose proof (run_fold_values d st f fs Hr (Hm f)) as Hf.
      rewrite Hv in Hf. destruct Hf as [_ ->].
      unfold save_pkl. rewrite Hw. destruct (dump values) as [b returned].
      unfold write. simpl. now rewrite String.eqb_refl.
    + simpl in Hnd. inversion Hnd as [| ? ? Hnotin _]; subst.
      rewrite in_map_iff. intros [f' [H Hin]].
      apply fold_path_inj in H. now subst f'.
  - simpl app. rewrite run_over_cons.
    pose proof (run_fold_values d st f0 fs Hr (Hm f0)) as Hf.
    destruct (fold_values d fs f0) as [v0 |]; [| congruence].
    destruct Hf as [Hr' _].
    apply IH.
    + exact Hr'.
    + intros f'. rewrite <- (Hm f').
      apply run_fold_content. apply not_eq_sym, fold_path_not_model.
    + now rewrite run_fold_writable.
    + simpl in Hnd. now inversion Hnd.
Qed.

(** The files of a fold that raises and of the folds after it. *)
Lemma run_over_lost d fs folds st pre f0 mid f :
  raised st = None -> same_models (disk st) fs ->
  folds = pre ++ f0 :: mid -> NoDup folds ->
  fold_values d fs f0 = None -> In f (f0 :: mid) ->
  content (disk (run_over (Some d) folds st)) (fold_path f)
  = content (disk st) (fold_path f).
Proof.
  intros Hr Hm -> Hnd Hv Hin. revert st Hr Hm Hnd.
  induction pre as [| f1 pre IH]; intros st Hr Hm Hnd.
  - simpl app. rewrite run_over_cons.
    pose proof (run_fold_values d st f0 fs Hr (Hm f0)) as Hf.
    rewrite Hv in Hf. destruct Hf as [Hr' Hd].
    rewrite run_over_raised by exact Hr'. now rewrite Hd.
  - simpl app. rewrite run_over_cons.
    simpl in Hnd. inversion Hnd as [| ? ? Hnotin Hnd']; subst.
    assert (Hne : fold_path f <> fold_path f1).
    { intros H. apply fold_path_inj in H. subst f1.
      apply Hnotin, in_or_app. now right. }
    rewrite <- (run_fold_content (Some d) st f1 _ Hne).
    destruct (raised (run_fold (Some d) st f1)) eqn:Hr'.
    + rewrite run_over_raised; [reflexivity | congruence].
    + apply IH; [exact Hr' | | exact Hnd'].
      intros f'. rewrite <- (Hm f').
      apply run_fold_content. apply not_eq_sym, fold_path_not_model.
Qed.

(** The exceptions and the calls of a run do not depend on what can be
    written. *)
Lemma run_fold_same_models df st st' f :
  raised st = raised st' -> calls st = calls st' ->
  content (disk st) (model_path f) = content (disk st') (model_path f) ->
  raised (run_fold df st f) = raised (run_fold df st' f) /\
  calls (run_fold df st f) = calls (run_fold df st' f).
Proof.
  intros Hr Hc Hm. unfold run_fold. rewrite <- Hr, <- Hm.
  destruct (raised st) eqn:E; [split; congruence |].
  destruct df as [d |]; [| simpl; split; congruence].
  destruct (d f) as [X_fold |]; [| simpl; split; congruence].
  destruct (option_map load_model (content (disk st) (model_path f))) as [[m |] |];
    try (simpl; split; congruence).
  destruct (fold_examples eta m X_fold []) as [[values | e |] l];
    try (simpl; split; congruence).
  destruct (save_pkl _ _ _ _ (disk st)), (save_pkl _ _ _ _ (disk st')).
  simpl. split; congruence.
Qed.

Lemma run_over_same_models df folds st st' :
  raised st = raised st' -> calls st = calls st' ->
  same_models (disk st) (disk st') ->
  raised (run_over df folds st) = raised (run_over df folds st') /\
  calls (run_over df folds st) = calls (run_over df folds st').
Proof.
  revert st st'. induction folds as [| f folds IH]; intros st st' Hr Hc Hm.
  - split; assumption.
  - rewrite !run_over_cons.
    destruct (run_fold_same_models df st st' f Hr Hc (Hm f)) as [Hr' Hc'].
    apply IH; [exact Hr' | exact Hc' |].
    intros f'.
    rewrite !run_fold_content by (apply not_eq_sym, fold_path_not_model).
    apply Hm.
Qed.

End Driver_facts.

Section Driver_theorem_helpers.
Context {NumT : Scalar}.
Variable load_model : list Byte.byte -> option (Model NumT).
Variable dump : list num -> list Byte.byte * bool.
Variable eta : num.

Lemma run_fold_no_fuel df st f :
  raised st <> Some NoFuel ->
  raised (run_fold load_model dump eta df st f) <> Some NoFuel.
Proof.
  intros Hr. unfold run_fold.
  destruct (raised st) eqn:E; [now rewrite E |].
  destruct df as [d |]; [| discriminate].
  destruct (d f) as [X_fold |]; [| discriminate].
  destruct (option_map load_model (content (disk st) (model_path f))) as [[m |] |];
    try discriminate.
  pose proof (fold_examples_terminates eta m X_fold []) as Ht.
  destruct (fold_examples eta m X_fold []) as [[values | e |] l]; simpl.
  - now destruct save_pkl.
  - discriminate.
  - now contradiction Ht.
Qed.

Lemma run_over_no_fuel df folds st :
  raised st <> Some NoFuel ->
  raised (run_over load_model dump eta df folds st) <> Some NoFuel.
Proof.
  revert st. induction folds as [| f folds IH]; intros st Hr; [exact Hr |].
  rewrite run_over_cons. apply IH, run_fold_no_fuel, Hr.
Qed.

Lemma run_fold_type_error d st f :
  raised st <> Some TypeError ->
  raised (run_fold load_model dump eta (Some d) st f) <> Some TypeError.
Proof.
  intros Hr. unfold run_fold.
  destruct (raised st) eqn:E; [now rewrite E |].
  destruct (d f) as [X_fold |]; [| discriminate].
  destruct (option_map load_model (content (disk st) (model_path f))) as [[m |] |];
    try discriminate.
  destruct (fold_examples eta m X_fold []) as [[values | e |] l]; simpl;
    try discriminate.
  now destruct save_pkl.
Qed.

Lemma run_over_type_error d folds st :
  raised st <> Some TypeError ->
  raised (run_over load_model dump eta (Some d) folds st) <> Some TypeError.
Proof.
  revert st. induction folds as [| f folds IH]; intros st Hr; [exact Hr |].
  rewrite run_over_cons. apply IH, run_fold_type_error, Hr.
Qed.

End Driver_theorem_helpers.

Lemma seq_split (f : nat) :
  1 <= f <= 10 -> seq 1 10 = seq 1 (f - 1) ++ f :: seq (S f) (10 - f).
Proof.
  intros Hf. replace 10 with ((f - 1) + S (10 - f)) at 1 by lia.
  rewrite seq_app. replace (1 + (f - 1)) with f by lia. reflexivity.
Qed.

(** X10.  When the features cannot be loaded, [load_pkl] prints its notice
    and returns [None]; the run over the folds then ends at once with a
    [TypeError], before any model is called and with no file written. *)
Theorem notebook_without_features {NumT : Scalar}
  (loads : list Byte.byte -> option features)
  (load_model : list Byte.byte -> option (Model NumT))
  (dump : list num -> list Byte.byte * bool) (eta : num) (fs : filesystem) :
  fst (load_pkl features loads features_path fs) = None ->
  notebook loads load_model dump eta fs
  = {| disk := fs; notices := [load_failure]; calls := []; raised := Some TypeError |}.
Proof.
  unfold notebook, load_pkl.
  destruct (content fs features_path) as [b |]; [destruct (loads b) |];
    simpl; try discriminate; intros _; reflexivity.
Qed.

Lemma notebook_without_features_witness :
  fst (load_pkl (@features F64) (fun _ => None) features_path empty_disk) = None /\
  @notebook F64 (fun _ => None) load_near9 dump_zeros 1000000%float empty_disk
  = {| disk := empty_disk; notices := [load_failure]; calls := [];
       raised := Some TypeError |}.
Proof.
  split; [reflexivity |].
  apply (@notebook_without_features F64 (fun _ => None) load_near9 dump_zeros
           1000000%float empty_disk).
  reflexivity.
Defined.

(** X11.  The run over the folds writes to the ten result files and to
    nothing else: what can be written stays as it was, every other file
    keeps its content, and so do the features file and the model files. *)
Theorem run_folds_other_files {NumT : Scalar}
  (load_model : list Byte.byte -> option (Model NumT))
  (dump : list num -> list Byte.byte * bool) (eta : num)
  (df_data : option features) (st : run) :
  let st' := run_folds load_model dump eta df_data st in
  writable (disk st') = writable (disk st) /\
  (forall p, ~ In p (map fold_path (seq 1 10)) ->
             content (disk st') p = content (disk st) p) /\
  content (disk st') features_path = content (disk st) features_path /\
  (forall f, content (disk st') (model_path f) = content (disk st) (model_path f)).
Proof.
  unfold run_folds. cbv zeta.
  split; [apply run_over_writable |].
  split; [intros p Hp; now apply run_over_content |].
  split; [| intros f; apply run_over_models].
  apply run_over_content. rewrite in_map_iff. intros [f [H _]].
  now apply fold_path_not_features in H.
Qed.

(** X12.  When fold [f] and the folds before it can be run, and the result
    file of fold [f] can be opened for writing, that file holds at the end
    of the run what [pickle.dump] writes for the values of fold [f]: one
    ratio for each example of the fold, in their order. *)
Theorem run_folds_saved {NumT : Scalar}
  (load_model : list Byte.byte -> option (Model NumT))
  (dump : list num -> list Byte.byte * bool) (eta : num)
  (d : features) (fs : filesystem) (out : list String.string)
  (f : nat) (values : list num) :
  1 <= f <= 10 ->
  (forall f', 1 <= f' < f -> fold_values load_model eta d fs f' <> None) ->
  fold_values load_model eta d fs f = Some values ->
  writable fs (fold_path f) = true ->
  content (disk (run_folds load_model dump eta (Some d) (start fs out))) (fold_path f)
  = Some (fst (dump values))
  /\ exists X_fold b fold_model_rnn,
       d f = Some X_fold /\ content fs (model_path f) = Some b /\
       load_model b = Some fold_model_rnn /\
       Forall2 (ratio_of eta fold_model_rnn) X_fold values.
Proof.
  intros Hf Hpre Hv Hw. split.
  - unfold run_folds.
    assert (HF : Forall (fun f' => fold_values load_model eta d fs f' <> None)
                   (seq 1 (f - 1))).
    { apply Forall_forall. intros f' Hin. apply in_seq in Hin. apply Hpre. lia. }
    exact (run_over_saved load_model dump eta d fs (seq 1 10) (start fs out)
             (seq 1 (f - 1)) f (seq (S f) (10 - f)) values
             eq_refl (fun _ => eq_refl) (seq_split f Hf) (seq_NoDup 10 1) HF Hv Hw).
  - unfold fold_values in Hv.
    destruct (d f) as [X_fold |] eqn:Hd; [| discriminate].
    destruct (content fs (model_path f)) as [b |] eqn:Hb; [| discriminate].
    simpl in Hv. destruct (load_model b) as [m |] eqn:Hm; [| discriminate].
    destruct (fold_examples eta m X_fold []) as [[vs | e |] l] eqn:He;
      try discriminate.
    injection Hv as ->.
    apply fold_examples_values in He. destruct He as (vs & -> & Hvs).
    exists X_fold, b, m. auto.
Qed.

Lemma run_folds_saved_witness :
  exists values,
    @fold_values F64 load_near9 1000000%float same_folds open_disk 2 = Some values /\
    content (disk (@run_folds F64 load_near9 dump_zeros 1000000%float (Some same_folds)
                     (start open_disk [])))
            (fold_path 2)
    = Some (fst (dump_zeros values)) /\
    exists X_fold b fold_model_rnn,
      same_folds 2 = Some X_fold /\ content open_disk (model_path 2) = Some b /\
      load_near9 b = Some fold_model_rnn /\
      Forall2 (@ratio_of F64 1000000%float fold_model_rnn) X_fold values.
Proof.
  eexists. split; [vm_compute; reflexivity |].
  apply (@run_folds_saved F64 load_near9 dump_zeros 1000000%float same_folds
           open_disk [] 2).
  - lia.
  - intros f' _. vm_compute. discriminate.
  - vm_compute. reflexivity.
  - reflexivity.
Defined.

(** X13.  When a fold cannot be run (its examples or its model are missing,
    or [deepfool] raises on one of its examples), the run ends with an
    exception, and the result files of that fold and of the folds after it
    are left as they were. *)
Theorem run_folds_lost {NumT : Scalar}
  (load_model : list Byte.byte -> option (Model NumT))
  (dump : list num -> list Byte.byte * bool) (eta : num)
  (d : features) (fs : filesystem) (out : list String.string) (f0 f : nat) :
  1 <= f0 -> f0 <= f -> f <= 10 ->
  fold_values load_model eta d fs f0 = None ->
  let st' := run_folds load_model dump eta (Some d) (start fs out) in
  raised st' <> None /\
  content (disk st') (fold_path f) = content fs (fold_path f).
Proof.
  intros H1 H2 H3 Hv. cbv zeta. unfold run_folds. split.
  - rewrite (run_over_raised_iff load_model dump eta d fs (seq 1 10) (start fs out)
               eq_refl (fun _ => eq_refl)).
    rewrite Forall_forall. intros H. apply (H f0); [apply in_seq; lia | exact Hv].
  - assert (Hin : In f (f0 :: seq (S f0) (10 - f0))).
    { destruct (Nat.eq_dec f0 f) as [-> | Hne]; [now left | right].
      apply in_seq. lia. }
    exact (run_over_lost load_model dump eta d fs (seq 1 10) (start fs out)
             (seq 1 (f0 - 1)) f0 (seq (S f0) (10 - f0)) f
             eq_refl (fun _ => eq_refl) (seq_split f0 ltac:(lia)) (seq_NoDup 10 1)
             Hv Hin).
Qed.

Lemma run_folds_lost_witness :
  @fold_values F64 load_near9 1000000%float no_fold_3 open_disk 3 = None /\
  raised (@run_folds F64 load_near9 dump_zeros 1000000%float (Some no_fold_3)
            (start open_disk [])) <> None /\
  content (disk (@run_folds F64 load_near9 dump_zeros 1000000%float (Some no_fold_3)
                   (start open_disk [])))
          (fold_path 5)
  = content open_disk (fold_path 5).
Proof.
  split; [reflexivity |].
  apply (@run_folds_lost F64 load_near9 dump_zeros 1000000%float no_fold_3
           open_disk [] 3 5); [lia | lia | lia | reflexivity].
Defined.

(** X14.  The run over the folds ends without an exception exactly when
    each of the ten folds can be run; an exception of the run is never the
    [TypeError] of missing features when the features are there, and the
    run never stops for lack of fuel. *)
Theorem run_folds_raised {NumT : Scalar}
  (load_model : list Byte.byte -> option (Model NumT))
  (dump : list num -> list Byte.byte * bool) (eta : num)
  (d : features) (fs : filesystem) (out : list String.string) :
  let st' := run_folds load_model dump eta (Some d) (start fs out) in
  (raised st' = None
   <-> forall f, 1 <= f <= 10 -> fold_values load_model eta d fs f <> None) /\
  raised st' <> Some TypeError /\
  raised st' <> Some NoFuel.
Proof.
  cbv zeta. unfold run_folds. split; [| split].
  - rewrite (run_over_raised_iff load_model dump eta d fs (seq 1 10) (start fs out)
               eq_refl (fun _ => eq_refl)).
    rewrite Forall_forall. split.
    + intros H f Hf. apply H, in_seq. lia.
    + intros H f Hf. apply in_seq in Hf. apply H. lia.
  - apply run_over_type_error. discriminate.
  - apply run_over_no_fuel. discriminate.
Qed.

(** X15.  Whether the results can be saved has no influence on the run:
    on two sets of files with the same model files, the run ends in the
    same way and makes the same calls to the models. *)
Theorem run_folds_same_models {NumT : Scalar}
  (load_model : list Byte.byte -> option (Model NumT))
  (dump : list num -> list Byte.byte * bool) (eta : num)
  (df_data : option features) (fs fs' : filesystem) (out out' : list String.string) :
  same_models fs fs' ->
  raised (run_folds load_model dump eta df_data (start fs out))
  = raised (run_folds load_model dump eta df_data (start fs' out')) /\
  calls (run_folds load_model dump eta df_data (start fs out))
  = calls (run_folds load_model dump eta df_data (start fs' out')).
Proof.
  intros Hm. unfold run_folds. now apply run_over_same_models.
Qed.

Lemma run_folds_same_models_witness :
  same_models open_disk read_only_disk /\
  raised (@run_folds F64 load_near9 dump_zeros 1000000%float (Some same_folds)
            (start open_disk []))
  = raised (@run_folds F64 load_near9 dump_zeros 1000000%float (Some same_folds)
              (start read_only_disk [])) /\
  calls (@run_folds F64 load_near9 dump_zeros 1000000%float (Some same_folds)
           (start open_disk []))
  = calls (@run_folds F64 load_near9 dump_zeros 1000000%float (Some same_folds)
             (start read_only_disk [])).
Proof.
  assert (H : same_models open_disk read_only_disk) by (intros f; reflexivity).
  split; [exact H |].
  exact (@run_folds_same_models F64 load_near9 dump_zeros 1000000%float (Some same_folds)
           open_disk read_only_disk [] [] H).
Defined.
